(** * Audio/video merger: silence-aware duration alignment

  A shallow embedding of the successive iterations of the merger script:
  the simple padding scripts (among them [index2.js]), the first chunked
  script with [processMedia], and the last script, which works in a
  temporary directory.

  Durations and timestamps are JavaScript numbers in the source.  They
  are modelled as exact rationals [Q]; the one place where the source
  can leave the finite numbers (a division by [audioChunks.length]) is
  modelled with the explicit type [num] below.  Every call into
  fluent-ffmpeg is an opaque request to a media engine whose answer is
  given by an [Engine] record; the scripts' own logic (regular
  expressions, arithmetic, sequencing of promises, try/catch/finally)
  is what is embedded. *)

From Stdlib Require Import QArith Qround Qminmax ZArith List String Ascii Bool Lia.
From Stdlib Require Import DecimalNat DecimalString.
Import ListNotations.

Local Open Scope Q_scope.

(** ** JavaScript numbers *)

Module JS.

(** A finite value, or one of the three non-finite results of [x / 0]. *)
Inductive num : Type :=
| Fin (q : Q)
| PosInf
| NegInf
| NaN.

(** [a < b] on finite numbers. *)
Definition ltb (a b : Q) : bool := negb (Qle_bool b a).

(** [a > b] on finite numbers. *)
Definition gtb (a b : Q) : bool := ltb b a.

(** [a <= b] on finite numbers. *)
Definition leb (a b : Q) : bool := Qle_bool a b.

(** [x / y] for finite [x] and [y]. *)
Definition div (x y : Q) : num :=
  if Qeq_bool y 0 then
    match x ?= 0 with
    | Gt => PosInf
    | Lt => NegInf
    | Eq => NaN
    end
  else Fin (x / y).

(** [Math.min(a, b)] with a finite second argument. *)
Definition Math_min (a : num) (b : Q) : num :=
  match a with
  | Fin q => Fin (Qmin q b)
  | PosInf => Fin b
  | NegInf => NegInf
  | NaN => NaN
  end.

(** [Math.ceil(n)]. *)
Definition Math_ceil (n : num) : num :=
  match n with
  | Fin q => Fin (inject_Z (Qceiling q))
  | _ => n
  end.

(** [n - b] with a finite second argument. *)
Definition sub (n : num) (b : Q) : num :=
  match n with
  | Fin q => Fin (q - b)
  | _ => n
  end.

End JS.

(** ** Data model *)

(** [{ type: 'start' | 'end', time }] as pushed by [detectSilences]. *)
Inductive EventType : Type := start_ | end_.

Record SilenceEvent : Type := mkEvent { type : EventType; time : Q }.

(** [{ start, end }] as pushed onto [audioChunks]. *)
Record Chunk : Type := mkChunk { chunk_start : Q; chunk_end : Q }.

(** ** Silence analyzer: the chunking loop of the chunked
     [extendAudioWithSilence] *)

Module Analyzer.

(** The body of [silenceTimes.forEach]; the state is the pair of the
    two variables it mutates, [audioChunks] and [lastEndTime]. *)
Definition forEach_body (st : list Chunk * Q) (silence : SilenceEvent)
  : list Chunk * Q :=
  let (audioChunks, lastEndTime) := st in
  match type silence with
  | start_ =>
      if JS.ltb lastEndTime (time silence)
      then (audioChunks ++ [mkChunk lastEndTime (time silence)], lastEndTime)
      else (audioChunks, lastEndTime)
  | end_ => (audioChunks, time silence)
  end.

Definition forEach (silenceTimes : list SilenceEvent) : list Chunk * Q :=
  fold_left forEach_body silenceTimes ([], 0).

(** The whole block from [const audioChunks = []] to the trailing
    [if (audioDuration > lastEndTime)]: it returns [audioChunks] and
    [audioDuration]. *)
Definition audioChunks_of (silenceTimes : list SilenceEvent) : list Chunk * Q :=
  let (audioChunks, lastEndTime) := forEach silenceTimes in
  let audioDuration := lastEndTime in
  if JS.gtb audioDuration lastEndTime
  then (audioChunks ++ [mkChunk lastEndTime audioDuration], audioDuration)
  else (audioChunks, audioDuration).

End Analyzer.

(** ** Scraping the engine's diagnostic lines: the ['stderr'] handler of
       [detectSilences] (identical in every iteration) *)

Module Scraper.

Local Open Scope string_scope.

(** [\d] *)
Definition is_digit (c : ascii) : bool :=
  ((48 <=? nat_of_ascii c) && (nat_of_ascii c <=? 57))%nat.

(** [\d*], greedy: the longest run of digits at the head of [s], and what
    follows it. *)
Fixpoint span_digits (s : string) : string * string :=
  match s with
  | String c s' =>
      if is_digit c
      then let (ds, rest) := span_digits s' in (String c ds, rest)
      else (EmptyString, s)
  | EmptyString => (EmptyString, EmptyString)
  end.

(** [(\d+\.\d+)] anchored at the head of [s]: the captured text.  Both
    digit runs are greedy; giving digits back can never help, because
    the character after a shorter run is a digit and not the dot. *)
Definition match_decimal (s : string) : option string :=
  let (int_part, rest) := span_digits s in
  match int_part, rest with
  | String _ _, String "." rest' =>
      let (frac_part, _) := span_digits rest' in
      match frac_part with
      | String _ _ => Some (int_part ++ "." ++ frac_part)
      | EmptyString => None
      end
  | _, _ => None
  end.

(** The literal [lit] anchored at the head of [s]: what follows it. *)
Fixpoint strip_prefix (lit s : string) : option string :=
  match lit, s with
  | EmptyString, _ => Some s
  | String a lit', String b s' =>
      if Ascii.eqb a b then strip_prefix lit' s' else None
  | String _ _, EmptyString => None
  end.

(** The pattern [/<lit>(\d+\.\d+)/] anchored at the head of [s]. *)
Definition match_here (lit s : string) : option string :=
  match strip_prefix lit s with
  | Some rest => match_decimal rest
  | None => None
  end.

(** [line.match(/<lit>(\d+\.\d+)/)]: the first position of [line] at
    which the pattern matches; the result is capture group 1. *)
Fixpoint regex_match (lit line : string) : option string :=
  match match_here lit line with
  | Some capture => Some capture
  | None =>
      match line with
      | String _ line' => regex_match lit line'
      | EmptyString => None
      end
  end.

(** Value of a run of decimal digits, most significant first. *)
Fixpoint digits_value (acc : N) (s : string) : N :=
  match s with
  | String c s' =>
      digits_value (10 * acc + (N_of_ascii c - 48))%N s'
  | EmptyString => acc
  end.

(** [parseFloat] on the captures above: the decimal value of
    [digits . digits].  A capture always has that shape (lemma
    [match_decimal_shape]); on it the exact decimal value is returned,
    where JavaScript rounds it to the nearest double. *)
Definition parseFloat (capture : string) : Q :=
  let (int_part, rest) := span_digits capture in
  match rest with
  | String "." rest' =>
      let (frac_part, _) := span_digits rest' in
      inject_Z (Z.of_N (digits_value 0 int_part))
      + (Z.of_N (digits_value 0 frac_part)
         # Pos.pow 10 (Pos.of_nat (String.length frac_part)))
  | _ => inject_Z (Z.of_N (digits_value 0 int_part))
  end.

(** The ['stderr'] handler: [silenceTimes] is the array it pushes onto. *)
Definition on_stderr (silenceTimes : list SilenceEvent) (line : string)
  : list SilenceEvent :=
  let silenceStartMatch := regex_match "silence_start: " line in
  let silenceEndMatch := regex_match "silence_end: " line in
  let silenceTimes :=
    match silenceStartMatch with
    | Some capture => (silenceTimes ++ [mkEvent start_ (parseFloat capture)])%list
    | None => silenceTimes
    end in
  match silenceEndMatch with
  | Some capture => (silenceTimes ++ [mkEvent end_ (parseFloat capture)])%list
  | None => silenceTimes
  end.

(** A string made of digits only. *)
Fixpoint all_digits (s : string) : bool :=
  match s with
  | String c s' => is_digit c && all_digits s'
  | EmptyString => true
  end.

(** [line] contains [lit] followed by digits, a dot and digits. *)
Definition has_decimal_timestamp (lit line : string) : Prop :=
  exists before int_part frac_part after : string,
    line = before ++ lit ++ int_part ++ "." ++ frac_part ++ after
    /\ int_part <> "" /\ frac_part <> ""
    /\ all_digits int_part = true /\ all_digits frac_part = true.

(** The array [detectSilences] resolves with once every line has been
    handled. *)
Definition scrape (lines : list string) : list SilenceEvent :=
  fold_left on_stderr lines [].

End Scraper.

(** ** The media engine, the file system and promises *)

Local Open Scope string_scope.

(** [err.message] *)
Definition Error : Type := string.

(** What a file holds, as far as the scripts can tell: a file they did not
    write, or the result of one of the engine operations they request. *)
#[warnings="-register-all"]
Inductive Media : Type :=
| Original (path : string)
| Silence (duration : JS.num)
| Cut (source : Media) (startTime duration : Q)
| Cat (parts : list Media)
| Looped (source : Media) (stream_loop : JS.num) (t : Q)
| Muxed (video audio : Media).

(** The requests the scripts send to the engine, one constructor per
    fluent-ffmpeg command chain that occurs in the source. *)
Inductive Request : Type :=
| Ffprobe (filePath : string)
    (* ffmpeg.ffprobe(filePath, cb) *)
| SilenceDetect (audioPath : string)
    (* .audioFilters('silencedetect=n=-50dB:d=0.5') ... .run() *)
| GenSilence (duration : JS.num) (out : string)
    (* .input('anullsrc=r=44100:cl=stereo').outputOptions(`-t ${d}`).save(out) *)
| Concat2 (in0 in1 out : string)
    (* [0:a][1:a]concat=n=2:v=0:a=1[a] *)
| Trim (audioPath : string) (startTime duration : Q) (out : string)
    (* .setStartTime(start).setDuration(end - start).save(out) *)
| PadSilence (chunkAudioPath : string) (silenceDuration : JS.num) (out : string)
    (* anullsrc=...:d=${d}[silence];[0:a][silence]concat=n=2:v=0:a=1[out] *)
| ConcatN (inputs : list string) (n : nat) (out : string)
    (* concat=n=${n}:v=0:a=1[out] over the given inputs *)
| LoopTrim (videoPath : string) (stream_loop : JS.num) (t : Q) (out : string)
    (* .inputOptions(`-stream_loop ${loopCount - 1}`).outputOptions('-t', t) *)
| Mux (videoPath audioPath out : string).
    (* -c:v copy -c:a aac *)

Inductive Settled (A : Type) : Type :=
| Resolved (value : A)
| Rejected (err : Error).
Arguments Resolved {A} value.
Arguments Rejected {A} err.

(** The engine is an oracle: it decides the probed duration of a file, the
    diagnostic lines of a silence detection, and whether a request ends
    or errors. *)
Record Engine : Type := mkEngine {
  ffprobe : string -> Settled Q;
  silencedetect : string -> list string * option Error;
  run : Request -> option Error
}.

(** Directories that exist, files written so far (latest first) and the
    requests issued so far (oldest first). *)
Record World : Type := mkWorld {
  dirs : list string;
  files : list (string * Media);
  issued : list Request
}.

Fixpoint lookup (p : string) (fs : list (string * Media)) : option Media :=
  match fs with
  | (q, m) :: fs' => if String.eqb p q then Some m else lookup p fs'
  | [] => None
  end.

Definition content (w : World) (p : string) : Media :=
  match lookup p (files w) with
  | Some m => m
  | None => Original p
  end.

(** The file a request writes when it ends, and what the file holds. *)
Definition product (w : World) (r : Request) : option (string * Media) :=
  match r with
  | Ffprobe _ | SilenceDetect _ => None
  | GenSilence d out => Some (out, Silence d)
  | Concat2 in0 in1 out => Some (out, Cat [content w in0; content w in1])
  | Trim a s d out => Some (out, Cut (content w a) s d)
  | PadSilence c d out => Some (out, Cat [content w c; Silence d])
  | ConcatN ins _ out => Some (out, Cat (map (content w) ins))
  | LoopTrim v k t out => Some (out, Looped (content w v) k t)
  | Mux v a out => Some (out, Muxed (content w v) (content w a))
  end.

(** The files a request reads. *)
Definition reads (r : Request) : list string :=
  match r with
  | Ffprobe p | SilenceDetect p => [p]
  | GenSilence _ _ => []
  | Concat2 in0 in1 _ => [in0; in1]
  | Trim a _ _ _ => [a]
  | PadSilence c _ _ => [c]
  | ConcatN ins _ _ => ins
  | LoopTrim v _ _ _ => [v]
  | Mux v a _ => [v; a]
  end.

(** The file a request writes. *)
Definition target (r : Request) : option string :=
  match r with
  | Ffprobe _ | SilenceDetect _ => None
  | GenSilence _ out | Concat2 _ _ out | Trim _ _ _ out | PadSilence _ _ out
  | ConcatN _ _ out | LoopTrim _ _ _ out | Mux _ _ out => Some out
  end.

(** The silence clips inserted in a track, in order: the [Silence] parts
    of its concatenations. *)
Fixpoint silences (m : Media) : list JS.num :=
  match m with
  | Silence d => [d]
  | Cat parts => flat_map silences parts
  | Original _ | Cut _ _ _ | Looped _ _ _ | Muxed _ _ => []
  end.


(** Whether the engine lets a request fail. *)
Definition fails (E : Engine) (r : Request) : bool :=
  match r with
  | Ffprobe p => match ffprobe E p with Rejected _ => true | Resolved _ => false end
  | SilenceDetect p => match snd (silencedetect E p) with Some _ => true | None => false end
  | _ => match run E r with Some _ => true | None => false end
  end.

Definition log (r : Request) (w : World) : World :=
  mkWorld (dirs w) (files w) (issued w ++ [r]).

Definition write (p : string) (m : Media) (w : World) : World :=
  mkWorld (dirs w) ((p, m) :: files w) (issued w).

(** [path.join(a, b)] on the paths that occur. *)
Definition path_join (a b : string) : string := a ++ "/" ++ b.

Fixpoint after_last_slash (s cur : string) : string :=
  match s with
  | String "/" s' => after_last_slash s' s'
  | String _ s' => after_last_slash s' cur
  | EmptyString => cur
  end.

(** [path.basename(p)] *)
Definition basename (p : string) : string := after_last_slash p p.

(** [`${index}`] *)
Definition index_text (index : nat) : string :=
  NilEmpty.string_of_uint (Nat.to_uint index).

Definition is_under (dir p : string) : bool := String.prefix (dir ++ "/") p.

(** [fs.mkdirSync(dir, { recursive: true })] *)
Definition mkdirSync (dir : string) (w : World) : World :=
  mkWorld (dir :: dirs w) (files w) (issued w).

(** [fs.rmSync(dir, { recursive: true, force: true })] *)
Definition rmSync (dir : string) (w : World) : World :=
  mkWorld
    (filter (fun d => negb (String.eqb d dir || is_under dir d)) (dirs w))
    (filter (fun f => negb (is_under dir (fst f))) (files w))
    (issued w).

(** A promise-returning computation: run against a world, it settles and
    leaves a world. *)
Definition Promise (A : Type) : Type := World -> Settled A * World.

Definition resolve {A : Type} (a : A) : Promise A := fun w => (Resolved a, w).

Definition reject {A : Type} (err : Error) : Promise A := fun w => (Rejected err, w).

(** [p.then(k)], and [const x = await p; k x] inside an async function. *)
Definition then_ {A B : Type} (p : Promise A) (k : A -> Promise B) : Promise B :=
  fun w =>
    match p w with
    | (Resolved a, w') => k a w'
    | (Rejected err, w') => (Rejected err, w')
    end.

Declare Scope promise_scope.
Delimit Scope promise_scope with promise.
Notation "x <- p ;; k" := (then_ p (fun x => k))
  (at level 61, p at next level, right associativity) : promise_scope.
Notation "p ;;; k" := (then_ p (fun _ => k))
  (at level 61, right associativity) : promise_scope.
Local Open Scope promise_scope.

(** [Promise.all(ps)]: every promise of the array has been started when
    [Promise.all] is called, so every one of them runs; the values keep
    the order of the array.  When several reject, the error kept is the
    one of the first in array order. *)
Fixpoint Promise_all {A : Type} (ps : list (Promise A)) : Promise (list A) :=
  fun w =>
    match ps with
    | [] => (Resolved [], w)
    | p :: ps' =>
        let (r, w1) := p w in
        let (rs, w2) := Promise_all ps' w1 in
        (match r, rs with
         | Resolved a, Resolved l => Resolved (a :: l)
         | Rejected err, _ => Rejected err
         | Resolved _, Rejected err => Rejected err
         end, w2)
    end.

(** [try { body } catch (error) { handler }] *)
Definition try_catch {A : Type} (body : Promise A) (handler : Error -> Promise A)
  : Promise A :=
  fun w =>
    match body w with
    | (Resolved a, w') => (Resolved a, w')
    | (Rejected err, w') => handler err w'
    end.

(** [... finally { cleanup }] for a synchronous cleanup. *)
Definition finally {A : Type} (body : Promise A) (cleanup : World -> World)
  : Promise A :=
  fun w => let (r, w') := body w in (r, cleanup w').

(** [arr.map((x, index) => f(x, index))] *)
Fixpoint mapi_from {A B : Type} (index : nat) (f : A -> nat -> B) (l : list A)
  : list B :=
  match l with
  | [] => []
  | x :: l' => f x index :: mapi_from (S index) f l'
  end.

Definition mapi {A B : Type} (f : A -> nat -> B) (l : list A) : list B :=
  mapi_from 0 f l.

Section Engine_calls.

Variable E : Engine.

(** [new Promise((resolve, reject) => ffmpeg()....save(out).on('end', () =>
    resolve(value)).on('error', reject))]: the request is issued; when it
    ends the output file exists and the promise resolves with [value]. *)
Definition ffmpeg_save {A : Type} (r : Request) (value : A) : Promise A :=
  fun w =>
    match run E r with
    | None =>
        match product w r with
        | Some (out, m) => (Resolved value, write out m (log r w))
        | None => (Resolved value, log r w)
        end
    | Some err => (Rejected err, log r w)
    end.

(** [getDuration(filePath)] *)
Definition getDuration (filePath : string) : Promise Q :=
  fun w => (ffprobe E filePath, log (Ffprobe filePath) w).

(** [detectSilences(audioPath)] *)
Definition detectSilences (audioPath : string) : Promise (list SilenceEvent) :=
  fun w =>
    let (lines, outcome) := silencedetect E audioPath in
    let silenceTimes := Scraper.scrape lines in
    (match outcome with
     | None => Resolved silenceTimes
     | Some err => Rejected err
     end, log (SilenceDetect audioPath) w).

End Engine_calls.

(** ** The simple padding variant ([index2.js] and the first script) *)

Module Simple.

(** The callback of [silenceTimes.reduce], with [arr[idx - 1]] passed as
    [previous] ([None] at index 0, where [arr[-1]] is [undefined]). *)
Definition reducer (total : Q) (current : SilenceEvent)
  (previous : option SilenceEvent) : Q :=
  match type current, previous with
  | end_, Some before =>
      match type before with
      | start_ => total + (time current - time before)
      | end_ => total
      end
  | _, _ => total
  end.

Fixpoint reduce_from (previous : option SilenceEvent) (total : Q)
  (arr : list SilenceEvent) : Q :=
  match arr with
  | [] => total
  | current :: rest =>
      reduce_from (Some current) (reducer total current previous) rest
  end.

(** [totalSilenceTime] *)
Definition totalSilenceTime (silenceTimes : list SilenceEvent) : Q :=
  reduce_from None 0 silenceTimes.

Section Script.

Variable E : Engine.
Variable dirname : string.

(** [extendAudioWithSilence(audioPath, videoDuration, outputAudioPath)]:
    two chained [.then] callbacks after [detectSilences]. *)
Definition extendAudioWithSilence (audioPath : string) (videoDuration : Q)
  (outputAudioPath : string) : Promise string :=
  silentFilePath <-
    (silenceTimes <- detectSilences E audioPath ;;
     let additionalSilenceNeeded := videoDuration - totalSilenceTime silenceTimes in
     if JS.leb additionalSilenceNeeded 0 then resolve audioPath
     else
       let silenceDuration := Qmin additionalSilenceNeeded 5 in
       let silentFilePath := path_join dirname "silence.mp3" in
       ffmpeg_save E (GenSilence (JS.Fin silenceDuration) silentFilePath) silentFilePath) ;;
  ffmpeg_save E (Concat2 audioPath silentFilePath outputAudioPath) outputAudioPath.

End Script.

End Simple.

(** ** The first chunked iteration, with [processMedia] *)

Module Chunked.

Section Script.

Variable E : Engine.
Variable dirname : string.

(** [extendAudioWithSilence(audioPath, videoDuration, outputAudioPath)].
    Each element of the first [Promise.all] is a chunk extraction chained
    with the generation of its silence clip. *)
Definition extendAudioWithSilence (audioPath : string) (videoDuration : Q)
  (outputAudioPath : string) : Promise string :=
  silenceTimes <- detectSilences E audioPath ;;
  let (audioChunks, audioDuration) := Analyzer.audioChunks_of silenceTimes in
  let totalSilenceNeeded := videoDuration - audioDuration in
  let silencePerChunk :=
    JS.div totalSilenceNeeded (inject_Z (Z.of_nat (List.length audioChunks))) in
  results <-
    Promise_all (mapi (fun chunk index =>
      let chunkAudioPath := path_join dirname ("chunk-" ++ index_text index ++ ".mp3") in
      chunkAudioPath <-
        ffmpeg_save E (Trim audioPath (chunk_start chunk)
                         (chunk_end chunk - chunk_start chunk) chunkAudioPath)
          chunkAudioPath ;;
      let silenceDuration := JS.Math_min silencePerChunk 5 in
      let silentFilePath := path_join dirname ("silence-" ++ index_text index ++ ".mp3") in
      ffmpeg_save E (GenSilence silenceDuration silentFilePath)
        (chunkAudioPath, silentFilePath)) audioChunks) ;;
  mergedFiles <-
    Promise_all (map (fun result : string * string =>
      let (chunkAudioPath, silentFilePath) := result in
      let mergedFilePath := path_join dirname ("merged-" ++ basename chunkAudioPath) in
      ffmpeg_save E (Concat2 chunkAudioPath silentFilePath mergedFilePath)
        mergedFilePath) results) ;;
  let finalOutputFile := outputAudioPath in
  ffmpeg_save E (ConcatN [String.concat "|" mergedFiles] (List.length mergedFiles)
                   finalOutputFile) finalOutputFile.

(** [loopVideo(videoPath, videoDuration, audioDuration, outputLoopedVideoPath)] *)
Definition loopVideo (videoPath : string) (videoDuration audioDuration : Q)
  (outputLoopedVideoPath : string) : Promise string :=
  if JS.leb audioDuration videoDuration then resolve videoPath
  else
    let loopCount := JS.Math_ceil (JS.div audioDuration videoDuration) in
    ffmpeg_save E (LoopTrim videoPath (JS.sub loopCount 1) audioDuration
                     outputLoopedVideoPath) outputLoopedVideoPath.

(** [mergeAudioVideo(videoPath, extendedAudioPath, outputVideoPath)] *)
Definition mergeAudioVideo (videoPath extendedAudioPath outputVideoPath : string)
  : Promise string :=
  ffmpeg_save E (Mux videoPath extendedAudioPath outputVideoPath) outputVideoPath.

Definition videoFilePath : string := path_join dirname "looped-input-video.mp4".
Definition audioFilePath : string := path_join dirname "input-audio.mp3".
Definition outputLoopedVideoPath : string := path_join dirname "looped-video.mp4".
Definition outputVideoWithAudioPath : string :=
  path_join dirname "output-video-with-audio.mp4".
Definition extendedAudioPath : string := path_join dirname "extended-audio.mp3".

(** The three-way decision of [processMedia]: the paths handed to the
    final mux. *)
Definition align (videoDuration audioDuration : Q) : Promise (string * string) :=
  let finalAudioPath := audioFilePath in
  let finalVideoPath := videoFilePath in
  if JS.gtb audioDuration videoDuration then
    finalVideoPath <- loopVideo videoFilePath videoDuration audioDuration
                        outputLoopedVideoPath ;;
    resolve (finalVideoPath, finalAudioPath)
  else if JS.gtb videoDuration audioDuration then
    finalAudioPath <- extendAudioWithSilence audioFilePath videoDuration
                        extendedAudioPath ;;
    resolve (finalVideoPath, finalAudioPath)
  else resolve (finalVideoPath, finalAudioPath).

(** [processMedia()]; the [catch] only prints the error. *)
Definition processMedia : Promise unit :=
  try_catch
    (videoDuration <- getDuration E videoFilePath ;;
     audioDuration <- getDuration E audioFilePath ;;
     final <- align videoDuration audioDuration ;;
     outputPath <- mergeAudioVideo (fst final) (snd final) outputVideoWithAudioPath ;;
     resolve tt)
    (fun err => resolve tt).

End Script.

End Chunked.

(** ** The last iteration: chunks in a temporary directory *)

Module TempDir.

Section Script.

Variable E : Engine.
Variable dirname : string.
(** [crypto.randomBytes(16).toString('hex')] *)
Variable randomHex : string.

Definition generateRandomFolderName : string := randomHex.

(** [createTempDirectory()]: the directory is made and its path returned. *)
Definition createTempDirectory (w : World) : string * World :=
  let tempDir := path_join dirname generateRandomFolderName in
  (tempDir, mkdirSync tempDir w).

(** The requests of the first [Promise.all]: one extraction per chunk. *)
Definition extract_chunk (audioPath tempDir : string) (silencePerChunk : JS.num)
  (chunk : Chunk) (index : nat) : Promise (string * JS.num) :=
  let chunkAudioPath := path_join tempDir ("chunk-" ++ index_text index ++ ".mp3") in
  ffmpeg_save E (Trim audioPath (chunk_start chunk)
                   (chunk_end chunk - chunk_start chunk) chunkAudioPath)
    (chunkAudioPath, JS.Math_min silencePerChunk 5).

(** The requests of the second [Promise.all]: each chunk file followed by
    a generated silence. *)
Definition merge_chunk (tempDir : string) (chunkResult : string * JS.num)
  (index : nat) : Promise string :=
  let (chunkAudioPath, silenceDuration) := chunkResult in
  let mergedFilePath := path_join tempDir ("merged-" ++ index_text index ++ ".mp3") in
  ffmpeg_save E (PadSilence chunkAudioPath silenceDuration mergedFilePath)
    mergedFilePath.

(** [extendAudioWithSilence(audioPath, videoDuration, outputAudioPath, tempDir)] *)
Definition extendAudioWithSilence (audioPath : string) (videoDuration : Q)
  (outputAudioPath tempDir : string) : Promise string :=
  silenceTimes <- detectSilences E audioPath ;;
  let (audioChunks, audioDuration) := Analyzer.audioChunks_of silenceTimes in
  let totalSilenceNeeded := videoDuration - audioDuration in
  let silencePerChunk :=
    JS.div totalSilenceNeeded (inject_Z (Z.of_nat (List.length audioChunks))) in
  chunkResults <-
    Promise_all (mapi (extract_chunk audioPath tempDir silencePerChunk) audioChunks) ;;
  mergedFiles <- Promise_all (mapi (merge_chunk tempDir) chunkResults) ;;
  let finalOutputFile := outputAudioPath in
  ffmpeg_save E (ConcatN mergedFiles (List.length mergedFiles) finalOutputFile)
    finalOutputFile.

(** [loopVideo(videoPath, videoDuration, audioDuration, outputLoopedVideoPath,
    tempDir)] *)
Definition loopVideo (videoPath : string) (videoDuration audioDuration : Q)
  (outputLoopedVideoPath tempDir : string) : Promise string :=
  if JS.leb audioDuration videoDuration then resolve videoPath
  else
    let loopCount := JS.Math_ceil (JS.div audioDuration videoDuration) in
    ffmpeg_save E (LoopTrim videoPath (JS.sub loopCount 1) audioDuration
                     outputLoopedVideoPath) outputLoopedVideoPath.

(** The body of the [try] block of [mergeAudioVideo]. *)
Definition merge_steps (videoPath audioPath outputPath tempDir : string)
  : Promise unit :=
  videoDuration <- getDuration E videoPath ;;
  audioDuration <- getDuration E audioPath ;;
  let outputAudioPath := path_join tempDir "extended-audio.mp3" in
  let outputLoopedVideoPath := path_join tempDir "looped-video.mp4" in
  extendAudioWithSilence audioPath videoDuration outputAudioPath tempDir ;;;
  loopVideo videoPath videoDuration audioDuration outputLoopedVideoPath tempDir ;;;
  ffmpeg_save E (Mux outputLoopedVideoPath outputAudioPath outputPath) tt.

(** [mergeAudioVideo(videoPath, audioPath, outputPath)]: the [catch] only
    logs the error, the [finally] removes the temporary directory. *)
Definition mergeAudioVideo (videoPath audioPath outputPath : string)
  : Promise unit :=
  fun w =>
    let (tempDir, w0) := createTempDirectory w in
    finally
      (try_catch (merge_steps videoPath audioPath outputPath tempDir)
         (fun error => resolve tt))
      (rmSync tempDir) w0.

End Script.

End TempDir.

(** ** The two batches of the last iteration, as data *)

Module Batch.

(** Path of the [index]-th file of a family ([chunk-], [merged-]) inside
    [tempDir]. *)
Definition numbered (tempDir family : string) (index : nat) : string :=
  path_join tempDir (family ++ index_text index ++ ".mp3").

(** The request of [TempDir.extract_chunk] and the value it resolves with. *)
Definition extract_task (audioPath tempDir : string) (silencePerChunk : JS.num)
  (chunk : Chunk) (index : nat) : Request * (string * JS.num) :=
  (Trim audioPath (chunk_start chunk) (chunk_end chunk - chunk_start chunk)
     (numbered tempDir "chunk-" index),
   (numbered tempDir "chunk-" index, JS.Math_min silencePerChunk 5)).

(** The request of [TempDir.merge_chunk] and the value it resolves with. *)
Definition merge_task (tempDir : string) (chunkResult : string * JS.num)
  (index : nat) : Request * string :=
  (PadSilence (fst chunkResult) (snd chunkResult) (numbered tempDir "merged-" index),
   numbered tempDir "merged-" index).

(** A [Promise.all] over requests that each resolve with a given value. *)
Definition save_all (E : Engine) {A : Type} (tasks : list (Request * A))
  : Promise (list A) :=
  Promise_all (map (fun task => ffmpeg_save E (fst task) (snd task)) tasks).

End Batch.

(** ** The failure discipline of a run *)

(** Requests the source starts together, inside one [Promise.all]: the
    chunk extractions, and the chunk paddings.  Every other request is
    awaited on its own. *)
Definition started_together (r r' : Request) : bool :=
  match r, r' with
  | Trim _ _ _ _, Trim _ _ _ _ => true
  | PadSilence _ _ _, PadSilence _ _ _ => true
  | _, _ => false
  end.

(** Requests that end by writing a file (the ones sent by [ffmpeg_save]). *)
Definition saves (r : Request) : Prop :=
  match r with
  | Ffprobe _ | SilenceDetect _ => False
  | _ => True
  end.

(** In a sequence of requests, a request that fails is followed only by
    requests that were started together with it, and never by itself
    again: later steps are not reached and nothing is retried. *)
Definition aborts_on_failure (E : Engine) (requests : list Request) : Prop :=
  forall before r after,
    requests = (before ++ r :: after)%list ->
    fails E r = true ->
    Forall (fun r' => started_together r r' = true /\ r' <> r) after.

(** A computation that only adds requests, stops at a failure as above,
    and resolves only if every request it issued ended. *)
Definition disciplined (E : Engine) {A : Type} (m : Promise A) : Prop :=
  forall w, exists requests,
    issued (snd (m w)) = (issued w ++ requests)%list
    /\ aborts_on_failure E requests
    /\ (forall a, fst (m w) = Resolved a ->
        Forall (fun r => fails E r = false) requests).

(** A batch whose requests read none of the files the batch writes. *)
Definition independent (requests : list Request) : Prop :=
  forall r r' p, In r requests -> In r' requests -> In p (reads r) ->
                 target r' <> Some p.

(** ** The silence analyzer in the words of the specification *)

Module SpecWords.

(** Walk the events in order: each Start closes the current segment,
    which began at the reference point; each End opens a new reference
    point.  The result is the segments and the last reference point. *)
Fixpoint walk (reference : Q) (events : list SilenceEvent) : list Chunk * Q :=
  match events with
  | [] => ([], reference)
  | event :: rest =>
      match type event with
      | start_ =>
          let (segments, last) := walk reference rest in
          (mkChunk reference (time event) :: segments, last)
      | end_ => walk (time event) rest
      end
  end.

(** After the last event, if the reference point precedes the end of the
    track, one trailing segment up to the track duration is emitted. *)
Definition segments (events : list SilenceEvent) (trackDuration : Q) : list Chunk :=
  let (found, reference) := walk 0 events in
  if JS.ltb reference trackDuration
  then (found ++ [mkChunk reference trackDuration])%list
  else found.

(** Every Start lies strictly after the reference point it closes. *)
Fixpoint starts_follow (reference : Q) (events : list SilenceEvent) : bool :=
  match events with
  | [] => true
  | event :: rest =>
      match type event with
      | start_ => JS.ltb reference (time event) && starts_follow reference rest
      | end_ => starts_follow (time event) rest
      end
  end.

End SpecWords.

(** ** Engines used in the concrete runs *)

Module Runs.

(** An engine on which every request ends: [duration p] is the probed
    duration of [p] and [lines] are the diagnostic lines of the silence
    detection. *)
Definition engine_of (duration : string -> Q) (lines : list string) : Engine :=
  mkEngine (fun p => Resolved (duration p)) (fun _ => (lines, None)) (fun _ => None).

(** An engine whose probe fails. *)
Definition unreadable : Engine :=
  mkEngine (fun _ => Rejected "ffprobe exited with code 1")
    (fun _ => ([], None)) (fun _ => None).

(** An engine on which the extraction of the first chunk fails and every
    other request ends. *)
Definition first_chunk_fails (lines : list string) : Engine :=
  mkEngine (fun _ => Resolved 20) (fun _ => (lines, None))
    (fun r =>
       match r with
       | Trim _ _ _ out =>
           if String.eqb out "/app/tmp/chunk-0.mp3"
           then Some "ffmpeg exited with code 1" else None
       | _ => None
       end).

(** An engine on which every request ends and the audio of
    [Chunked.processMedia] is one microsecond longer than its 10-second
    video. *)
Definition microsecond_longer_audio : Engine :=
  engine_of (fun p => if String.eqb p "/app/input-audio.mp3"
                      then 10000001 # 1000000 else 10) [].

(** Nothing created, written or requested yet. *)
Definition fresh : World := mkWorld [] [] [].

Definition video : string := "/app/input-video.mp4".
Definition audio : string := "/app/input-audio.mp3".
Definition output : string := "/app/merged_video.mp4".

(** Diagnostic lines of a track that is silent from 2.5s to 4.5s. *)
Definition one_pause : list string :=
  ["[silencedetect @ 0x55d0] silence_start: 2.5";
   "[silencedetect @ 0x55d0] silence_end: 4.5 | silence_duration: 2"].

(** Diagnostic lines of a track that is silent from 1.5s to 11.5s. *)
Definition long_pause : list string :=
  ["[silencedetect @ 0x55d0] silence_start: 1.5";
   "[silencedetect @ 0x55d0] silence_end: 11.5 | silence_duration: 10"].

(** Diagnostic lines of a track with two pauses. *)
Definition two_pauses : list string :=
  ["[silencedetect @ 0x55d0] silence_start: 2.5";
   "[silencedetect @ 0x55d0] silence_end: 4.5 | silence_duration: 2";
   "[silencedetect @ 0x55d0] silence_start: 9.25";
   "[silencedetect @ 0x55d0] silence_end: 9.5 | silence_duration: 0.25"].

(** Diagnostic lines without any silence report. *)
Definition no_pause : list string :=
  ["size=N/A time=00:00:10.00 bitrate=N/A speed= 500x"].

End Runs.

(** ** The drivers of the simple scripts *)

(** [Promise.all([p, q])] with the two values destructured. *)
Definition Promise_all2 {A B : Type} (p : Promise A) (q : Promise B)
  : Promise (A * B) :=
  fun w =>
    let (r, w1) := p w in
    let (s, w2) := q w1 in
    (match r, s with
     | Resolved a, Resolved b => Resolved (a, b)
     | Rejected err, _ => Rejected err
     | Resolved _, Rejected err => Rejected err
     end, w2).

(** The script that calls the simple variant from [processMedia] (the
    first of the three scripts that define [processMedia]); [loopVideo]
    and [mergeAudioVideo] have the text of the later iteration. *)
Module FirstProcess.

Section Script.

Variable E : Engine.
Variable dirname : string.

(** The three-way decision of [processMedia]. *)
Definition align (videoDuration audioDuration : Q) : Promise (string * string) :=
  let finalAudioPath := Chunked.audioFilePath dirname in
  let finalVideoPath := Chunked.videoFilePath dirname in
  if JS.gtb audioDuration videoDuration then
    finalVideoPath <- Chunked.loopVideo E (Chunked.videoFilePath dirname)
                        videoDuration audioDuration
                        (Chunked.outputLoopedVideoPath dirname) ;;
    resolve (finalVideoPath, finalAudioPath)
  else if JS.gtb videoDuration audioDuration then
    finalAudioPath <- Simple.extendAudioWithSilence E dirname
                        (Chunked.audioFilePath dirname) videoDuration
                        (Chunked.extendedAudioPath dirname) ;;
    resolve (finalVideoPath, finalAudioPath)
  else resolve (finalVideoPath, finalAudioPath).

(** [processMedia()] *)
Definition processMedia : Promise unit :=
  try_catch
    (videoDuration <- getDuration E (Chunked.videoFilePath dirname) ;;
     audioDuration <- getDuration E (Chunked.audioFilePath dirname) ;;
     final <- align videoDuration audioDuration ;;
     outputPath <- Chunked.mergeAudioVideo E (fst final) (snd final)
                     (Chunked.outputVideoWithAudioPath dirname) ;;
     resolve tt)
    (fun err => resolve tt).

End Script.

End FirstProcess.

(** The driver at the end of [index2.js]. *)
Module Index2.

Section Script.

Variable E : Engine.
Variable dirname : string.

Definition videoFilePath : string := path_join dirname "input-video.mp4".
Definition audioFilePath : string := path_join dirname "input-audio.mp3".
Definition outputLoopedVideoPath : string := path_join dirname "looped-video.mp4".
Definition outputVideoWithAudioPath : string :=
  path_join dirname "output-video-with-audio.mp4".
Definition extendedAudioPath : string := path_join dirname "extended-audio.mp3".

(** The promise chain.  In the second [.then] callback [audioDuration]
    is not in scope (it is a parameter of the first callback and the
    module declares no such name), so evaluating the arguments of
    [extendAudioWithSilence] throws a ReferenceError before the call:
    the callback rejects.  [loopedVideoPath], used by the third
    callback, is out of scope in the same way.  The final [.catch] only
    prints the error. *)
Definition main : Promise unit :=
  try_catch
    (durations <- Promise_all2 (getDuration E videoFilePath)
                    (getDuration E audioFilePath) ;;
     loopedVideoPath <- Chunked.loopVideo E videoFilePath (fst durations)
                          (snd durations) outputLoopedVideoPath ;;
     extendedAudioPath <- reject (A := string) "audioDuration is not defined" ;;
     outputPath <- reject (A := string) "loopedVideoPath is not defined" ;;
     resolve tt)
    (fun err => resolve tt).

End Script.

End Index2.

(** ** Reference readings used to state properties of the scripts *)

Module Reading.

(** The number written [int_part . frac_part], read with the standard
    library's decimal conversion. *)
Definition decimal (int_part frac_part : string) : option Q :=
  match NilEmpty.uint_of_string int_part, NilEmpty.uint_of_string frac_part with
  | Some i, Some f =>
      Some (inject_Z (Z.of_nat (Nat.of_uint i))
            + (Z.of_nat (Nat.of_uint f)
               # Pos.pow 10 (Pos.of_nat (String.length frac_part))))
  | _, _ => None
  end.

(** [s] does not begin with a digit. *)
Definition no_leading_digit (s : string) : Prop :=
  match s with
  | String c _ => Scraper.is_digit c = false
  | EmptyString => True
  end.

Definition is_start (event : SilenceEvent) : bool :=
  match type event with start_ => true | end_ => false end.

Definition is_end (event : SilenceEvent) : bool :=
  match type event with end_ => true | start_ => false end.

(** [s] contains no [/]. *)
Fixpoint slash_free (s : string) : bool :=
  match s with
  | String c s' => negb (Ascii.eqb c "/") && slash_free s'
  | EmptyString => true
  end.

(** Requests of the padding path: neither a probe, a loop nor a mux. *)
Definition is_padding (r : Request) : Prop :=
  match r with
  | Ffprobe _ | LoopTrim _ _ _ _ | Mux _ _ _ => False
  | _ => True
  end.

(** The events [Start@s, End@e] of a list of silences [(s, e)]. *)
Definition events_of (silences : list (Q * Q)) : list SilenceEvent :=
  flat_map (fun se => [mkEvent start_ (fst se); mkEvent end_ (snd se)]) silences.

(** Total length of a list of silences [(s, e)]. *)
Fixpoint total_length (silences : list (Q * Q)) : Q :=
  match silences with
  | [] => 0
  | (s, e) :: rest => (e - s) + total_length rest
  end.

End Reading.

(** A computation that only adds requests, each satisfying [P]. *)
Definition issues_only (P : Request -> Prop) {A : Type} (m : Promise A) : Prop :=
  forall w, exists requests,
    issued (snd (m w)) = (issued w ++ requests)%list /\ Forall P requests.

(** A computation that never writes the file [q]. *)
Definition untouched (q : string) {A : Type} (m : Promise A) : Prop :=
  forall w, lookup q (files (snd (m w))) = lookup q (files w).

(** A computation that resolves with [value] from every world. *)
Definition resolves_with {A : Type} (m : Promise A) (value : A) : Prop :=
  forall w, fst (m w) = Resolved value.

(** * Properties *)

(** ** JavaScript numbers *)

Lemma ltb_lt a b : JS.ltb a b = true <-> a < b.
Proof.
  unfold JS.ltb. rewrite negb_true_iff. split; intros H.
  - apply Qnot_le_lt. intros Hle. apply Qle_bool_iff in Hle. congruence.
  - destruct (Qle_bool b a) eqn:Hba; [|reflexivity].
    apply Qle_bool_iff in Hba. exfalso. exact (Qlt_not_le _ _ H Hba).
Qed.

Lemma ltb_irrefl a : JS.ltb a a = false.
Proof.
  destruct (JS.ltb a a) eqn:Haa; [|reflexivity].
  apply ltb_lt in Haa. exfalso. exact (Qlt_irrefl _ Haa).
Qed.

Lemma gtb_irrefl a : JS.gtb a a = false.
Proof. apply ltb_irrefl. Qed.

Lemma leb_le a b : JS.leb a b = true <-> a <= b.
Proof. apply Qle_bool_iff. Qed.

Lemma leb_false_of_lt a b : b < a -> JS.leb a b = false.
Proof.
  intros H. destruct (JS.leb a b) eqn:Hab; [|reflexivity].
  apply leb_le in Hab. exfalso. exact (Qlt_not_le _ _ H Hab).
Qed.

Lemma div_finite x y : ~ y == 0 -> JS.div x y = JS.Fin (x / y).
Proof.
  intros Hy. unfold JS.div. destruct (Qeq_bool y 0) eqn:Hy0; [|reflexivity].
  apply Qeq_bool_iff in Hy0. contradiction.
Qed.

Lemma div_by_zero_not_finite x q : JS.div x 0 <> JS.Fin q.
Proof. unfold JS.div. simpl. destruct (x ?= 0)%Q; discriminate. Qed.

(** ** The silence analyzer *)

Lemma audioChunks_of_forEach silenceTimes :
  Analyzer.audioChunks_of silenceTimes = Analyzer.forEach silenceTimes.
Proof.
  unfold Analyzer.audioChunks_of.
  destruct (Analyzer.forEach silenceTimes) as [audioChunks lastEndTime].
  rewrite gtb_irrefl. reflexivity.
Qed.

Lemma forEach_from_walk events : forall audioChunks reference,
  SpecWords.starts_follow reference events = true ->
  fold_left Analyzer.forEach_body events (audioChunks, reference)
  = ((audioChunks ++ fst (SpecWords.walk reference events))%list,
     snd (SpecWords.walk reference events)).
Proof.
  induction events as [|event events IH]; intros audioChunks reference Hfollow; simpl.
  - rewrite app_nil_r. reflexivity.
  - simpl in Hfollow. destruct (type event).
    + apply andb_true_iff in Hfollow. destruct Hfollow as [Hlater Hfollow].
      rewrite Hlater, (IH _ _ Hfollow).
      destruct (SpecWords.walk reference events) as [found last]. simpl.
      rewrite <- app_assoc. reflexivity.
    + exact (IH _ _ Hfollow).
Qed.

(** On an event stream whose Starts each lie after the reference point
    they close, the loop emits exactly the segments of the specification's
    walk; when the last reference point precedes the end of the track,
    the specification's segment list is the script's list followed by
    the trailing segment, which the script does not emit. *)
Lemma analyzer_is_walk_without_trailing_segment events trackDuration :
  SpecWords.starts_follow 0 events = true ->
  (snd (Analyzer.audioChunks_of events) < trackDuration)%Q ->
  Analyzer.audioChunks_of events = SpecWords.walk 0 events
  /\ SpecWords.segments events trackDuration
     = (fst (Analyzer.audioChunks_of events)
        ++ [mkChunk (snd (Analyzer.audioChunks_of events)) trackDuration])%list.
Proof.
  intros Hfollow Hbefore.
  assert (Hwalk : Analyzer.audioChunks_of events = SpecWords.walk 0 events).
  { rewrite audioChunks_of_forEach. unfold Analyzer.forEach.
    rewrite (forEach_from_walk _ _ _ Hfollow). simpl.
    destruct (SpecWords.walk 0 events); reflexivity. }
  split; [exact Hwalk|].
  rewrite Hwalk in *. unfold SpecWords.segments.
  destruct (SpecWords.walk 0 events) as [found reference]. simpl in *.
  apply ltb_lt in Hbefore. rewrite Hbefore. reflexivity.
Qed.

(** C1.  On the events [Start@2, End@4, Start@9, End@9.5] of a
    10-second track the specification's walk gives the segments (0,2),
    (4,9) and (9.5,10), and the script's analyzer returns (0,2) and (4,9)
    with the reference point 9.5: the trailing segment is not emitted.
    The same happens on the engine's own lines with the timestamps 2.5,
    4.5, 9.25 and 9.5.  For every event sequence the result is the one of
    the [forEach] loop alone, because [audioDuration] is [lastEndTime]
    itself and the trailing test [audioDuration > lastEndTime] is never
    true. *)
Theorem analyzer_never_emits_trailing_segment :
  SpecWords.segments
    [mkEvent start_ 2; mkEvent end_ 4; mkEvent start_ 9; mkEvent end_ (19 # 2)] 10
  = [mkChunk 0 2; mkChunk 4 9; mkChunk (19 # 2) 10]
  /\ Analyzer.audioChunks_of
       [mkEvent start_ 2; mkEvent end_ 4; mkEvent start_ 9; mkEvent end_ (19 # 2)]
     = ([mkChunk 0 2; mkChunk 4 9], 19 # 2)
  /\ Analyzer.audioChunks_of (Scraper.scrape Runs.two_pauses)
     = ([mkChunk 0 (25 # 10); mkChunk (45 # 10) (925 # 100)], 95 # 10)
  /\ (forall silenceTimes,
        Analyzer.audioChunks_of silenceTimes = Analyzer.forEach silenceTimes).
Proof.
  split; [reflexivity|].
  split; [reflexivity|].
  split; [reflexivity|].
  exact audioChunks_of_forEach.
Qed.

(** C4.  With no silence event at all the specification's walk gives
    the single segment (0,10) on a 10-second track, and the script's
    analyzer returns no segment (and the reference point 0); the chunked
    [extendAudioWithSilence] then extracts nothing: after the detection
    its only request is a concatenation of zero inputs. *)
Theorem analyzer_no_event_no_segment :
  SpecWords.segments [] 10 = [mkChunk 0 10]
  /\ Analyzer.audioChunks_of [] = ([], 0)
  /\ Analyzer.audioChunks_of (Scraper.scrape Runs.no_pause) = ([], 0)
  /\ issued (snd (TempDir.extendAudioWithSilence
                    (Runs.engine_of (fun _ => 10) Runs.no_pause)
                    Runs.audio 12 "/app/tmp/extended-audio.mp3" "/app/tmp" Runs.fresh))
     = [SilenceDetect Runs.audio; ConcatN [] 0 "/app/tmp/extended-audio.mp3"].
Proof. repeat split; reflexivity. Qed.

(** ** Looping the video *)





(** ** The scraper *)

Lemma span_digits_spec s :
  s = fst (Scraper.span_digits s) ++ snd (Scraper.span_digits s)
  /\ Scraper.all_digits (fst (Scraper.span_digits s)) = true.
Proof.
  induction s as [|c s IH]; simpl.
  - split; reflexivity.
  - destruct (Scraper.is_digit c) eqn:Hc.
    + destruct (Scraper.span_digits s) as [ds rest]. simpl in *.
      destruct IH as [IH1 IH2]. split.
      * rewrite <- IH1. reflexivity.
      * rewrite Hc, IH2. reflexivity.
    + simpl. split; reflexivity.
Qed.

Lemma match_decimal_shape s capture :
  Scraper.match_decimal s = Some capture ->
  exists int_part frac_part after : string,
    s = int_part ++ "." ++ frac_part ++ after
    /\ capture = int_part ++ "." ++ frac_part
    /\ int_part <> "" /\ frac_part <> ""
    /\ Scraper.all_digits int_part = true /\ Scraper.all_digits frac_part = true.
Proof.
  unfold Scraper.match_decimal.
  destruct (span_digits_spec s) as [Hs Hint].
  destruct (Scraper.span_digits s) as [int_part rest]. simpl in Hs, Hint.
  destruct int_part as [|c int_part]; [discriminate|].
  destruct rest as [|dot rest']; [discriminate|].
  destruct (Ascii.eqb dot ".") eqn:Hdot.
  - apply Ascii.eqb_eq in Hdot. subst dot.
    destruct (span_digits_spec rest') as [Hrest Hfrac].
    destruct (Scraper.span_digits rest') as [frac_part after]. simpl in Hrest, Hfrac.
    destruct frac_part as [|d frac_part]; [discriminate|].
    intros Hsome. injection Hsome as <-.
    exists (String c int_part), (String d frac_part), after.
    repeat split; try discriminate; try assumption.
    rewrite Hs, Hrest. reflexivity.
  - intros Hsome. exfalso.
    destruct dot as [[] [] [] [] [] [] [] []]; try discriminate Hsome.
    discriminate Hdot.
Qed.

Lemma strip_prefix_spec lit : forall s rest,
  Scraper.strip_prefix lit s = Some rest -> s = lit ++ rest.
Proof.
  induction lit as [|a lit IH]; intros s rest; simpl.
  - intros Hsome. injection Hsome as <-. reflexivity.
  - destruct s as [|b s]; [discriminate|].
    destruct (Ascii.eqb a b) eqn:Hab; [|discriminate].
    apply Ascii.eqb_eq in Hab. subst b.
    intros Hsome. rewrite (IH _ _ Hsome). reflexivity.
Qed.

Lemma regex_match_shape lit line capture :
  Scraper.regex_match lit line = Some capture ->
  Scraper.has_decimal_timestamp lit line.
Proof.
  induction line as [|c line IH]; simpl.
  - destruct (Scraper.match_here lit "") as [found|] eqn:Hhere; [|discriminate].
    intros _. unfold Scraper.match_here in Hhere.
    destruct (Scraper.strip_prefix lit "") as [rest|] eqn:Hstrip; [|discriminate].
    apply strip_prefix_spec in Hstrip.
    apply match_decimal_shape in Hhere.
    destruct Hhere as (i & f & after & Hrest & _ & Hi & Hf & Hdi & Hdf).
    exists "", i, f, after. subst rest. repeat split; assumption.
  - destruct (Scraper.match_here lit (String c line)) as [found|] eqn:Hhere.
    + intros _. unfold Scraper.match_here in Hhere.
      destruct (Scraper.strip_prefix lit (String c line)) as [rest|] eqn:Hstrip;
        [|discriminate].
      apply strip_prefix_spec in Hstrip.
      apply match_decimal_shape in Hhere.
      destruct Hhere as (i & f & after & Hrest & _ & Hi & Hf & Hdi & Hdf).
      exists "", i, f, after. subst rest. repeat split; assumption.
    + intros Hrec. destruct (IH Hrec) as (before & i & f & after & Hline & Hrest).
      exists (String c before), i, f, after. split; [|exact Hrest].
      rewrite Hline. reflexivity.
Qed.

(** C9.  The ['stderr'] handler pushes an event only for a line that
    contains [silence_start: ] or [silence_end: ] followed by digits, a
    dot and digits; otherwise it leaves [silenceTimes] as it is.  A line
    with the integer timestamp [silence_start: 3] is dropped, and the
    stream scraped from that line and the matching [silence_end: 4.5]
    line is the single event End@4.5, an End without a Start before it. *)
Theorem scraper_drops_integer_timestamps :
  (forall silenceTimes line,
     Scraper.on_stderr silenceTimes line = silenceTimes
     \/ Scraper.has_decimal_timestamp "silence_start: " line
     \/ Scraper.has_decimal_timestamp "silence_end: " line)
  /\ (forall silenceTimes,
        Scraper.on_stderr silenceTimes "[silencedetect @ 0x55d0] silence_start: 3"
        = silenceTimes)
  /\ Scraper.scrape
       ["[silencedetect @ 0x55d0] silence_start: 3";
        "[silencedetect @ 0x55d0] silence_end: 4.5 | silence_duration: 1.5"]
     = [mkEvent end_ (45 # 10)].
Proof.
  split; [|split; [reflexivity|reflexivity]].
  intros silenceTimes line. unfold Scraper.on_stderr.
  destruct (Scraper.regex_match "silence_start: " line) as [c1|] eqn:Hstart.
  - right. left. exact (regex_match_shape _ _ _ Hstart).
  - destruct (Scraper.regex_match "silence_end: " line) as [c2|] eqn:Hend.
    + right. right. exact (regex_match_shape _ _ _ Hend).
    + left. reflexivity.
Qed.

(** ** The simple padding variant *)

(** The requests of the simple variant, for every input on which the
    detection ends: the padding is decided by [videoDuration -
    totalSilenceTime]; when it is not positive no silence is generated
    and the audio is concatenated with itself, otherwise one silence of
    [min(videoDuration - totalSilenceTime, 5)] seconds is generated and,
    once generated, appended to the audio. *)
Lemma simple_variant_requests (E : Engine) (dirname audioPath : string)
  (videoDuration : Q) (outputAudioPath : string) (lines : list string) (w : World) :
  silencedetect E audioPath = (lines, None) ->
  let additionalSilenceNeeded :=
    (videoDuration - Simple.totalSilenceTime (Scraper.scrape lines))%Q in
  let silentFilePath := path_join dirname "silence.mp3" in
  let silence := GenSilence (JS.Fin (Qmin additionalSilenceNeeded 5)) silentFilePath in
  issued (snd (Simple.extendAudioWithSilence E dirname audioPath videoDuration
                 outputAudioPath w))
  = (issued w ++ SilenceDetect audioPath ::
       (if JS.leb additionalSilenceNeeded 0
        then [Concat2 audioPath audioPath outputAudioPath]
        else silence ::
             match run E silence with
             | None => [Concat2 audioPath silentFilePath outputAudioPath]
             | Some _ => []
             end))%list.
Proof.
  intros Hdetect needed silentFilePath silence.
  unfold Simple.extendAudioWithSilence, then_, detectSilences.
  rewrite Hdetect. cbv beta iota zeta. fold needed.
  destruct (JS.leb needed 0); simpl.
  - unfold ffmpeg_save.
    destruct (run E (Concat2 audioPath audioPath outputAudioPath)); simpl;
      rewrite <- app_assoc; reflexivity.
  - fold silentFilePath. fold silence. unfold ffmpeg_save.
    destruct (run E silence) as [err|]; simpl.
    + rewrite <- app_assoc. reflexivity.
    + destruct (run E (Concat2 audioPath silentFilePath outputAudioPath)); simpl;
        rewrite <- !app_assoc; reflexivity.
Qed.

(** C10.  Evaluation at a track whose detected silence (10s) exceeds the
    8-second video, so that [additionalSilenceNeeded <= 0]: no silence
    file is requested, but the second [.then] still runs with the audio
    path in the place of the silence file.  The audio is concatenated
    with itself into [outputAudioPath], and the promise resolves with
    [outputAudioPath], not with the original audio path.  With a
    30-second video one silence block of [min(30 - 10, 5) = 5] seconds is
    generated and appended. *)
Theorem simple_variant_early_return_still_concatenates :
  (Simple.totalSilenceTime (Scraper.scrape Runs.long_pause) == 10)%Q
  /\ Simple.extendAudioWithSilence (Runs.engine_of (fun _ => 8) Runs.long_pause)
       "/app" Runs.audio 8 "/app/extended-audio.mp3" Runs.fresh
     = (Resolved "/app/extended-audio.mp3",
        mkWorld []
          [("/app/extended-audio.mp3",
            Cat [Original Runs.audio; Original Runs.audio])]
          [SilenceDetect Runs.audio;
           Concat2 Runs.audio Runs.audio "/app/extended-audio.mp3"])
  /\ Simple.extendAudioWithSilence (Runs.engine_of (fun _ => 30) Runs.long_pause)
       "/app" Runs.audio 30 "/app/extended-audio.mp3" Runs.fresh
     = (Resolved "/app/extended-audio.mp3",
        mkWorld []
          [("/app/extended-audio.mp3",
            Cat [Original Runs.audio; Silence (JS.Fin 5)]);
           ("/app/silence.mp3", Silence (JS.Fin 5))]
          [SilenceDetect Runs.audio;
           GenSilence (JS.Fin 5) "/app/silence.mp3";
           Concat2 Runs.audio "/app/silence.mp3" "/app/extended-audio.mp3"]).
Proof. repeat split; reflexivity. Qed.

(** ** The temporary directory *)

Lemma rmSync_removes dir w :
  ~ In dir (dirs (rmSync dir w))
  /\ (forall d, In d (dirs (rmSync dir w)) -> is_under dir d = false)
  /\ (forall p m, In (p, m) (files (rmSync dir w)) -> is_under dir p = false).
Proof.
  unfold rmSync. simpl. split; [|split].
  - intros Hin. apply filter_In in Hin. destruct Hin as [_ Hkeep].
    rewrite String.eqb_refl in Hkeep. discriminate.
  - intros d Hin. apply filter_In in Hin. destruct Hin as [_ Hkeep].
    apply negb_true_iff, orb_false_iff in Hkeep. apply Hkeep.
  - intros p m Hin. apply filter_In in Hin. destruct Hin as [_ Hkeep].
    apply negb_true_iff in Hkeep. exact Hkeep.
Qed.

(** C8.  Every run of [mergeAudioVideo] creates the temporary directory
    first and, whatever the engine answers at any stage, leaves a world
    in which that directory does not exist and nothing lies under it. *)
Theorem mergeAudioVideo_removes_temp_directory (E : Engine)
  (dirname randomHex videoPath audioPath outputPath : string) (w : World) :
  let tempDir := path_join dirname randomHex in
  let w' := snd (TempDir.mergeAudioVideo E dirname randomHex videoPath audioPath
                   outputPath w) in
  fst (TempDir.createTempDirectory dirname randomHex w) = tempDir
  /\ In tempDir (dirs (snd (TempDir.createTempDirectory dirname randomHex w)))
  /\ ~ In tempDir (dirs w')
  /\ (forall d, In d (dirs w') -> is_under tempDir d = false)
  /\ (forall p m, In (p, m) (files w') -> is_under tempDir p = false).
Proof.
  intros tempDir w'.
  split; [reflexivity|].
  split; [left; reflexivity|].
  subst w'. unfold TempDir.mergeAudioVideo, TempDir.createTempDirectory, finally.
  fold tempDir.
  destruct (try_catch _ _ _) as [r w1]. simpl.
  apply rmSync_removes.
Qed.

Lemma mergeAudioVideo_removes_temp_directory_witness :
  lookup "/app/tmp/chunk-0.mp3"
    (files (snd (TempDir.merge_steps (Runs.engine_of (fun _ => 10) Runs.one_pause)
                   Runs.video Runs.audio Runs.output "/app/tmp"
                   (mkdirSync "/app/tmp" Runs.fresh))))
  = Some (Cut (Original Runs.audio) 0 (25 # 10))
  /\ ~ In "/app/tmp"
        (dirs (snd (TempDir.mergeAudioVideo
                      (Runs.engine_of (fun _ => 10) Runs.one_pause)
                      "/app" "tmp" Runs.video Runs.audio Runs.output Runs.fresh)))
  /\ (forall p m,
        In (p, m)
          (files (snd (TempDir.mergeAudioVideo
                         (Runs.engine_of (fun _ => 10) Runs.one_pause)
                         "/app" "tmp" Runs.video Runs.audio Runs.output Runs.fresh))) ->
        is_under "/app/tmp" p = false).
Proof.
  split; [reflexivity|].
  pose proof (mergeAudioVideo_removes_temp_directory
                (Runs.engine_of (fun _ => 10) Runs.one_pause)
                "/app" "tmp" Runs.video Runs.audio Runs.output Runs.fresh) as H.
  split; [exact (proj1 (proj2 (proj2 H)))|].
  exact (proj2 (proj2 (proj2 (proj2 H)))).
Defined.

(** ** Equal durations *)

Lemma gtb_false_of_le a b : (a <= b)%Q -> JS.gtb a b = false.
Proof.
  intros H. unfold JS.gtb, JS.ltb. apply negb_false_iff. apply Qle_bool_iff. exact H.
Qed.




(** ** Failures: what a run does after a request has failed *)

Section Discipline.

Variable E : Engine.

Lemma aborts_nil : aborts_on_failure E [].
Proof.
  intros before r after Heq _. destruct before; discriminate.
Qed.

Lemma aborts_single r : aborts_on_failure E [r].
Proof.
  intros before r' after Heq _.
  destruct before as [|x before]; simpl in Heq.
  - injection Heq as _ <-. constructor.
  - injection Heq as _ Heq. destruct before; discriminate.
Qed.

(** A failing request of [good ++ rest] lies in [rest] when all of [good]
    ended. *)
Lemma failing_request_after_good good : forall rest before r after,
  Forall (fun x => fails E x = false) good ->
  (good ++ rest = before ++ r :: after)%list ->
  fails E r = true ->
  exists before', (before = good ++ before' /\ rest = before' ++ r :: after)%list.
Proof.
  induction good as [|g good IH]; intros rest before r after Hgood Heq Hfail.
  - exists before. split; [reflexivity|exact Heq].
  - inversion Hgood as [|? ? Hg Hgood']; subst.
    destruct before as [|b before]; simpl in Heq.
    + injection Heq as -> _. congruence.
    + injection Heq as <- Heq.
      destruct (IH _ _ _ _ Hgood' Heq Hfail) as (before' & -> & ->).
      exists before'. split; reflexivity.
Qed.

Lemma aborts_app good rest :
  Forall (fun x => fails E x = false) good ->
  aborts_on_failure E rest ->
  aborts_on_failure E (good ++ rest).
Proof.
  intros Hgood Hrest before r after Heq Hfail.
  destruct (failing_request_after_good _ _ _ _ _ Hgood Heq Hfail)
    as (before' & _ & Hsplit).
  exact (Hrest _ _ _ Hsplit Hfail).
Qed.

Lemma disciplined_resolve {A : Type} (a : A) : disciplined E (resolve a).
Proof.
  intros w. exists []. simpl. split; [symmetry; apply app_nil_r|].
  split; [apply aborts_nil|]. intros _ _. constructor.
Qed.

Lemma disciplined_then {A B : Type} (m : Promise A) (k : A -> Promise B) :
  disciplined E m -> (forall a, disciplined E (k a)) -> disciplined E (then_ m k).
Proof.
  intros Hm Hk w. unfold then_.
  destruct (Hm w) as (rq1 & Hlog1 & Habort1 & Hgood1).
  destruct (m w) as [[a|err] w1]; simpl in *.
  - destruct (Hk a w1) as (rq2 & Hlog2 & Habort2 & Hgood2).
    exists (rq1 ++ rq2)%list.
    specialize (Hgood1 a eq_refl).
    split; [rewrite Hlog2, Hlog1, app_assoc; reflexivity|].
    split; [apply aborts_app; assumption|].
    intros b Hb. apply Forall_app. split; [exact Hgood1|exact (Hgood2 b Hb)].
  - exists rq1. split; [exact Hlog1|]. split; [exact Habort1|].
    intros b Hb. discriminate.
Qed.

Lemma fails_save r : saves r -> fails E r = match run E r with Some _ => true | None => false end.
Proof. destruct r; simpl; intros H; try reflexivity; contradiction. Qed.

Lemma ffmpeg_save_issued {A : Type} r (value : A) w :
  issued (snd (ffmpeg_save E r value w)) = (issued w ++ [r])%list.
Proof.
  unfold ffmpeg_save. destruct (run E r); [reflexivity|].
  destruct (product w r) as [[out m]|]; reflexivity.
Qed.

Lemma ffmpeg_save_resolved {A : Type} r (value a : A) w :
  fst (ffmpeg_save E r value w) = Resolved a -> run E r = None /\ a = value.
Proof.
  unfold ffmpeg_save. destruct (run E r); [discriminate|].
  destruct (product w r) as [[out m]|]; simpl; intros H; injection H as <-;
    split; reflexivity.
Qed.

Lemma disciplined_save {A : Type} r (value : A) :
  saves r -> disciplined E (ffmpeg_save E r value).
Proof.
  intros Hsaves w. exists [r].
  split; [apply ffmpeg_save_issued|].
  split; [apply aborts_single|].
  intros a Ha. apply ffmpeg_save_resolved in Ha. destruct Ha as [Hrun _].
  constructor; [|constructor]. rewrite (fails_save _ Hsaves), Hrun. reflexivity.
Qed.

Lemma disciplined_getDuration filePath : disciplined E (getDuration E filePath).
Proof.
  intros w. exists [Ffprobe filePath]. unfold getDuration. simpl.
  split; [reflexivity|]. split; [apply aborts_single|].
  intros a Ha. constructor; [|constructor]. simpl. rewrite Ha. reflexivity.
Qed.

Lemma disciplined_detectSilences audioPath : disciplined E (detectSilences E audioPath).
Proof.
  intros w. exists [SilenceDetect audioPath]. unfold detectSilences.
  destruct (silencedetect E audioPath) as [lines outcome] eqn:Hdetect. simpl.
  split; [reflexivity|]. split; [apply aborts_single|].
  intros a Ha. constructor; [|constructor]. simpl. rewrite Hdetect. simpl.
  destruct outcome; [discriminate|reflexivity].
Qed.

End Discipline.

(** ** Indexed maps and numbered paths *)

Lemma mapi_from_map {A B C : Type} (g : B -> C) (f : A -> nat -> B) l : forall k,
  map g (mapi_from k f l) = mapi_from k (fun x i => g (f x i)) l.
Proof.
  induction l as [|x l IH]; intros k; simpl; [reflexivity|].
  rewrite IH. reflexivity.
Qed.

Lemma mapi_from_ext {A B : Type} (f g : A -> nat -> B) l : forall k,
  (forall x i, f x i = g x i) -> mapi_from k f l = mapi_from k g l.
Proof.
  induction l as [|x l IH]; intros k Hfg; simpl; [reflexivity|].
  rewrite Hfg, (IH _ Hfg). reflexivity.
Qed.

Lemma In_mapi_from {A B : Type} (f : A -> nat -> B) l : forall k b,
  In b (mapi_from k f l) -> exists x i, b = f x i /\ (k <= i)%nat.
Proof.
  induction l as [|x l IH]; intros k b Hin; simpl in Hin; [contradiction|].
  destruct Hin as [<-|Hin].
  - exists x, k. split; [reflexivity|lia].
  - destruct (IH _ _ Hin) as (y & i & -> & Hle).
    exists y, i. split; [reflexivity|lia].
Qed.

Lemma NoDup_mapi_from {A B : Type} (f : A -> nat -> B) l : forall k,
  (forall x y i j, f x i = f y j -> i = j) -> NoDup (mapi_from k f l).
Proof.
  induction l as [|x l IH]; intros k Hinj; simpl; constructor.
  - intros Hin. destruct (In_mapi_from _ _ _ _ Hin) as (y & i & Heq & Hle).
    apply Hinj in Heq. lia.
  - apply IH. exact Hinj.
Qed.

Lemma append_cancel_l (p s t : string) : p ++ s = p ++ t -> s = t.
Proof.
  induction p as [|c p IH]; simpl; intros H; [exact H|].
  injection H as H. exact (IH H).
Qed.

Lemma append_length (s t : string) :
  String.length (s ++ t) = (String.length s + String.length t)%nat.
Proof.
  induction s as [|c s IH]; simpl; [reflexivity|]. rewrite IH. reflexivity.
Qed.

Lemma append_cancel_r (t : string) : forall s s', s ++ t = s' ++ t -> s = s'.
Proof.
  induction s as [|c s IH]; intros [|c' s'] H; simpl in H.
  - reflexivity.
  - exfalso. apply (f_equal String.length) in H. simpl in H.
    rewrite append_length in H. lia.
  - exfalso. apply (f_equal String.length) in H. simpl in H.
    rewrite append_length in H. lia.
  - injection H as -> H. rewrite (IH _ H). reflexivity.
Qed.

Lemma index_text_inj i j : index_text i = index_text j -> i = j.
Proof.
  unfold index_text. intros H.
  apply DecimalNat.Unsigned.to_uint_inj.
  assert (Hparse : NilEmpty.uint_of_string (NilEmpty.string_of_uint (Nat.to_uint i))
                   = NilEmpty.uint_of_string (NilEmpty.string_of_uint (Nat.to_uint j)))
    by (rewrite H; reflexivity).
  rewrite !NilEmpty.usu in Hparse. injection Hparse as Hparse. exact Hparse.
Qed.

Lemma numbered_inj tempDir family i j :
  Batch.numbered tempDir family i = Batch.numbered tempDir family j -> i = j.
Proof.
  unfold Batch.numbered, path_join. intros H.
  apply append_cancel_l in H. simpl in H. injection H as H.
  apply append_cancel_l in H. apply append_cancel_r in H.
  exact (index_text_inj _ _ H).
Qed.

Lemma chunk_is_not_merged tempDir i j :
  Batch.numbered tempDir "chunk-" i <> Batch.numbered tempDir "merged-" j.
Proof.
  unfold Batch.numbered, path_join. intros H.
  apply append_cancel_l in H. simpl in H. discriminate.
Qed.

Lemma numbered_is_under tempDir family i :
  is_under tempDir (Batch.numbered tempDir family i) = true.
Proof.
  unfold is_under, Batch.numbered, path_join.
  generalize (family ++ index_text i ++ ".mp3"). intros rest.
  induction tempDir as [|c tempDir IH]; simpl.
  - destruct (ascii_dec "/" "/") as [_|Hne]; [|congruence].
    destruct rest; reflexivity.
  - destruct (ascii_dec c c) as [_|Hne]; [exact IH|congruence].
Qed.

(** ** Batches of requests *)

Section Batches.

Variable E : Engine.

Lemma save_all_issued {A : Type} (tasks : list (Request * A)) : forall w,
  issued (snd (Batch.save_all E tasks w)) = (issued w ++ map fst tasks)%list.
Proof.
  unfold Batch.save_all.
  induction tasks as [|[r v] tasks IH]; intros w; simpl.
  - symmetry. apply app_nil_r.
  - destruct (ffmpeg_save E r v w) as [res w1] eqn:Hsave.
    specialize (IH w1).
    destruct (Promise_all _ w1) as [rs w2]. simpl in *.
    rewrite IH.
    assert (Hw1 : issued w1 = (issued w ++ [r])%list).
    { rewrite <- (ffmpeg_save_issued E r v w), Hsave. reflexivity. }
    rewrite Hw1, <- app_assoc. reflexivity.
Qed.

Lemma save_all_resolved {A : Type} (tasks : list (Request * A)) : forall w values,
  fst (Batch.save_all E tasks w) = Resolved values ->
  values = map snd tasks /\ Forall (fun r => run E r = None) (map fst tasks).
Proof.
  unfold Batch.save_all.
  induction tasks as [|[r v] tasks IH]; intros w values; simpl.
  - intros H. injection H as <-. split; [reflexivity|constructor].
  - destruct (ffmpeg_save E r v w) as [res w1] eqn:Hsave.
    specialize (IH w1).
    destruct (Promise_all _ w1) as [rs w2]. simpl in *.
    destruct res as [a|err]; [|discriminate].
    destruct rs as [l|err]; [|discriminate].
    intros H. injection H as <-.
    destruct (IH l eq_refl) as [-> Hall].
    assert (Hres : fst (ffmpeg_save E r v w) = Resolved a) by (rewrite Hsave; reflexivity).
    apply ffmpeg_save_resolved in Hres. destruct Hres as [Hrun ->].
    split; [reflexivity|]. constructor; assumption.
Qed.

Lemma aborts_batch (requests : list Request) :
  (forall r r', In r requests -> In r' requests -> started_together r r' = true) ->
  NoDup requests ->
  aborts_on_failure E requests.
Proof.
  intros Htogether Hnodup before r after Heq _. subst requests.
  apply Forall_forall. intros r' Hin.
  split.
  - apply Htogether; apply in_or_app; right; [left; reflexivity|right; exact Hin].
  - intros ->. apply NoDup_remove_2 in Hnodup.
    apply Hnodup. apply in_or_app. right. exact Hin.
Qed.

Lemma disciplined_save_all {A : Type} (tasks : list (Request * A)) :
  Forall saves (map fst tasks) ->
  (forall r r', In r (map fst tasks) -> In r' (map fst tasks) ->
                started_together r r' = true) ->
  NoDup (map fst tasks) ->
  disciplined E (Batch.save_all E tasks).
Proof.
  intros Hsaves Htogether Hnodup w. exists (map fst tasks).
  split; [apply save_all_issued|].
  split; [apply aborts_batch; assumption|].
  intros values Hres. apply save_all_resolved in Hres. destruct Hres as [_ Hall].
  rewrite Forall_forall in *. intros r Hin.
  rewrite (fails_save E r (Hsaves r Hin)), (Hall r Hin). reflexivity.
Qed.

(** The first [Promise.all] of the last iteration is the batch of the
    extraction tasks, the second the batch of the padding tasks. *)
Lemma extract_batch audioPath tempDir silencePerChunk audioChunks :
  Promise_all (mapi (TempDir.extract_chunk E audioPath tempDir silencePerChunk)
                 audioChunks)
  = Batch.save_all E
      (mapi (Batch.extract_task audioPath tempDir silencePerChunk) audioChunks).
Proof.
  unfold Batch.save_all, mapi. rewrite mapi_from_map. reflexivity.
Qed.

Lemma merge_batch tempDir chunkResults :
  Promise_all (mapi (TempDir.merge_chunk E tempDir) chunkResults)
  = Batch.save_all E (mapi (Batch.merge_task tempDir) chunkResults).
Proof.
  unfold Batch.save_all, mapi. rewrite mapi_from_map. f_equal.
  apply mapi_from_ext. intros [chunkAudioPath silenceDuration] i. reflexivity.
Qed.

Lemma extract_tasks_disciplined audioPath tempDir silencePerChunk audioChunks :
  disciplined E (Batch.save_all E
    (mapi (Batch.extract_task audioPath tempDir silencePerChunk) audioChunks)).
Proof.
  apply disciplined_save_all; unfold mapi; rewrite mapi_from_map.
  - apply Forall_forall. intros r Hin.
    destruct (In_mapi_from _ _ _ _ Hin) as (x & i & -> & _). exact I.
  - intros r r' Hin Hin'.
    destruct (In_mapi_from _ _ _ _ Hin) as (x & i & -> & _).
    destruct (In_mapi_from _ _ _ _ Hin') as (x' & i' & -> & _). reflexivity.
  - apply NoDup_mapi_from. intros x y i j Heq. simpl in Heq.
    injection Heq as _ _ _ Hpath. exact (numbered_inj _ _ _ _ Hpath).
Qed.

Lemma merge_tasks_disciplined tempDir chunkResults :
  disciplined E (Batch.save_all E (mapi (Batch.merge_task tempDir) chunkResults)).
Proof.
  apply disciplined_save_all; unfold mapi; rewrite mapi_from_map.
  - apply Forall_forall. intros r Hin.
    destruct (In_mapi_from _ _ _ _ Hin) as (x & i & -> & _). exact I.
  - intros r r' Hin Hin'.
    destruct (In_mapi_from _ _ _ _ Hin) as (x & i & -> & _).
    destruct (In_mapi_from _ _ _ _ Hin') as (x' & i' & -> & _). reflexivity.
  - apply NoDup_mapi_from. intros x y i j Heq. simpl in Heq.
    injection Heq as _ _ Hpath. exact (numbered_inj _ _ _ _ Hpath).
Qed.

Lemma extendAudioWithSilence_disciplined audioPath videoDuration outputAudioPath tempDir :
  disciplined E (TempDir.extendAudioWithSilence E audioPath videoDuration
                   outputAudioPath tempDir).
Proof.
  unfold TempDir.extendAudioWithSilence.
  apply disciplined_then; [apply disciplined_detectSilences|].
  intros silenceTimes.
  destruct (Analyzer.audioChunks_of silenceTimes) as [audioChunks audioDuration].
  rewrite extract_batch.
  apply disciplined_then; [apply extract_tasks_disciplined|].
  intros chunkResults. rewrite merge_batch.
  apply disciplined_then; [apply merge_tasks_disciplined|].
  intros mergedFiles. apply disciplined_save. exact I.
Qed.

Lemma loopVideo_disciplined videoPath videoDuration audioDuration out tempDir :
  disciplined E (TempDir.loopVideo E videoPath videoDuration audioDuration out tempDir).
Proof.
  unfold TempDir.loopVideo.
  destruct (JS.leb audioDuration videoDuration).
  - apply disciplined_resolve.
  - apply disciplined_save. exact I.
Qed.

Lemma merge_steps_disciplined videoPath audioPath outputPath tempDir :
  disciplined E (TempDir.merge_steps E videoPath audioPath outputPath tempDir).
Proof.
  unfold TempDir.merge_steps.
  apply disciplined_then; [apply disciplined_getDuration|]. intros videoDuration.
  apply disciplined_then; [apply disciplined_getDuration|]. intros audioDuration.
  apply disciplined_then; [apply extendAudioWithSilence_disciplined|]. intros _.
  apply disciplined_then; [apply loopVideo_disciplined|]. intros _.
  apply disciplined_save. exact I.
Qed.

End Batches.

(** ** Failure of a stage in [mergeAudioVideo] *)

(** In every run of [mergeAudioVideo] a request that fails is followed
    by no request of a later step (only by the requests that were started
    together with it in the same [Promise.all]) and is not issued again;
    the error is caught inside [mergeAudioVideo], so the promise handed
    to the caller resolves in every case. *)
Lemma mergeAudioVideo_stops_at_failure_and_resolves (E : Engine)
  (dirname randomHex videoPath audioPath outputPath : string) (w : World) :
  fst (TempDir.mergeAudioVideo E dirname randomHex videoPath audioPath outputPath w)
  = Resolved tt
  /\ exists requests,
       issued (snd (TempDir.mergeAudioVideo E dirname randomHex videoPath audioPath
                      outputPath w))
       = (issued w ++ requests)%list
       /\ aborts_on_failure E requests.
Proof.
  unfold TempDir.mergeAudioVideo, TempDir.createTempDirectory, finally, try_catch.
  set (tempDir := path_join dirname (TempDir.generateRandomFolderName randomHex)).
  destruct (merge_steps_disciplined E videoPath audioPath outputPath tempDir
              (mkdirSync tempDir w)) as (requests & Hlog & Habort & _).
  destruct (TempDir.merge_steps E videoPath audioPath outputPath tempDir
              (mkdirSync tempDir w)) as [[[]|err] w1]; simpl in *.
  - split; [reflexivity|]. exists requests. split; assumption.
  - split; [reflexivity|]. exists requests. split; assumption.
Qed.

(** C7.  Evaluation at two failing runs of [mergeAudioVideo].  When the
    first probe errors, that probe is the only request.  When the
    extraction of the first of two chunks errors, the extraction of the
    second chunk, started in the same [Promise.all], is the last
    request: no padding, concatenation, loop or mux follows and nothing
    is issued twice.  In both runs the promise returned to the caller
    resolves, so the failure is not reported to the caller. *)
Theorem failed_stage_run_still_resolves :
  fails Runs.unreadable (Ffprobe Runs.video) = true
  /\ TempDir.mergeAudioVideo Runs.unreadable "/app" "tmp"
       Runs.video Runs.audio Runs.output Runs.fresh
     = (Resolved tt, mkWorld [] [] [Ffprobe Runs.video])
  /\ fails (Runs.first_chunk_fails Runs.two_pauses)
       (Trim Runs.audio 0 (25 # 10) "/app/tmp/chunk-0.mp3") = true
  /\ TempDir.mergeAudioVideo (Runs.first_chunk_fails Runs.two_pauses) "/app" "tmp"
       Runs.video Runs.audio Runs.output Runs.fresh
     = (Resolved tt,
        mkWorld [] []
          [Ffprobe Runs.video; Ffprobe Runs.audio; SilenceDetect Runs.audio;
           Trim Runs.audio 0 (25 # 10) "/app/tmp/chunk-0.mp3";
           Trim Runs.audio (45 # 10) ((925 # 100) - (45 # 10)) "/app/tmp/chunk-1.mp3"]).
Proof. repeat split; reflexivity. Qed.

(** ** What the files hold after a batch *)

Lemma content_write_same p m w : content (write p m w) p = m.
Proof. unfold content, write. simpl. rewrite String.eqb_refl. reflexivity. Qed.

Lemma content_write_other p q m w : q <> p -> content (write p m w) q = content w q.
Proof.
  intros Hne. unfold content, write. simpl.
  destruct (String.eqb q p) eqn:Hqp; [|reflexivity].
  apply String.eqb_eq in Hqp. contradiction.
Qed.

Lemma product_target w r :
  match product w r with
  | Some (out, _) => target r = Some out
  | None => target r = None
  end.
Proof. destruct r; reflexivity. Qed.

Lemma product_reads w w' r :
  (forall p, In p (reads r) -> content w p = content w' p) ->
  product w r = product w' r.
Proof.
  intros Hsame. destruct r; simpl in *; try reflexivity.
  - rewrite (Hsame in0), (Hsame in1) by auto. reflexivity.
  - rewrite (Hsame audioPath) by auto. reflexivity.
  - rewrite (Hsame chunkAudioPath) by auto. reflexivity.
  - do 3 f_equal. apply map_ext_in. exact Hsame.
  - rewrite (Hsame videoPath) by auto. reflexivity.
  - rewrite (Hsame videoPath), (Hsame audioPath) by auto. reflexivity.
Qed.

Section Contents.

Variable E : Engine.
Hypothesis every_request_ends : forall r, run E r = None.

Lemma ffmpeg_save_ends {A : Type} r (value : A) w :
  ffmpeg_save E r value w
  = (Resolved value,
     match product w r with
     | Some (out, m) => write out m (log r w)
     | None => log r w
     end).
Proof.
  unfold ffmpeg_save. rewrite every_request_ends.
  destruct (product w r) as [[out m]|]; reflexivity.
Qed.

Lemma save_all_contents {A : Type} (tasks : list (Request * A)) : forall w,
  independent (map fst tasks) ->
  fst (Batch.save_all E tasks w) = Resolved (map snd tasks)
  /\ (forall q, ~ In (Some q) (map target (map fst tasks)) ->
        content (snd (Batch.save_all E tasks w)) q = content w q)
  /\ (NoDup (map target (map fst tasks)) ->
      forall r out m, In r (map fst tasks) -> product w r = Some (out, m) ->
        content (snd (Batch.save_all E tasks w)) out = m).
Proof.
  unfold Batch.save_all.
  induction tasks as [|[r v] tasks IH]; intros w Hind; simpl.
  - split; [reflexivity|]. split; [reflexivity|]. intros _ r out m [].
  - rewrite ffmpeg_save_ends.
    set (w1 := match product w r with
               | Some (out, m) => write out m (log r w)
               | None => log r w
               end).
    assert (Hind' : independent (map fst tasks)).
    { intros a b p Ha Hb Hp. apply (Hind a b p); simpl; auto. }
    destruct (IH w1 Hind') as (Hres & Hother & Hown).
    destruct (Promise_all _ w1) as [rs w2]. simpl in *. subst rs.
    assert (Hw1_other : forall q, target r <> Some q -> content w1 q = content w q).
    { intros q Hq. subst w1. pose proof (product_target w r) as Ht.
      destruct (product w r) as [[out m]|]; [|reflexivity].
      rewrite content_write_other; [reflexivity|]. intros ->. contradiction. }
    split; [reflexivity|]. split.
    + intros q Hq. rewrite Hother by tauto. apply Hw1_other. tauto.
    + intros Hnodup r' out m Hin Hprod.
      inversion Hnodup as [|? ? Hfirst Hrest]; subst.
      pose proof (product_target w r') as Ht'. rewrite Hprod in Ht'.
      destruct Hin as [<-|Hin].
      * rewrite Hother by (rewrite <- Ht'; exact Hfirst).
        subst w1. rewrite Hprod. apply content_write_same.
      * apply (Hown Hrest r'); [exact Hin|].
        rewrite <- Hprod. symmetry. apply product_reads.
        intros p Hp. symmetry. apply Hw1_other.
        apply (Hind r' r p); simpl; auto.
Qed.

End Contents.

(** ** The chunked padding of the last iteration *)

Lemma mapi_from_mapi_from {A B C : Type} (g : B -> nat -> C) (f : A -> nat -> B) l :
  forall k, mapi_from k g (mapi_from k f l) = mapi_from k (fun x i => g (f x i) i) l.
Proof.
  induction l as [|x l IH]; intros k; simpl; [reflexivity|].
  rewrite IH. reflexivity.
Qed.

Lemma mapi_from_no_index {A B : Type} (f : A -> B) l : forall k,
  mapi_from k (fun x _ => f x) l = map f l.
Proof.
  induction l as [|x l IH]; intros k; simpl; [reflexivity|].
  rewrite IH. reflexivity.
Qed.

Lemma mapi_from_ext_in {A B C : Type} (t : A -> nat -> C) (f g : A -> nat -> B) l :
  forall k,
  (forall x i, In (t x i) (mapi_from k t l) -> f x i = g x i) ->
  mapi_from k f l = mapi_from k g l.
Proof.
  induction l as [|x l IH]; intros k Hfg; simpl; [reflexivity|].
  rewrite (Hfg x k) by (left; reflexivity).
  rewrite (IH (S k)); [reflexivity|].
  intros y i Hin. apply Hfg. right. exact Hin.
Qed.

Section Padding.

Variable E : Engine.
Hypothesis every_request_ends : forall r, run E r = None.

Variables audioPath outputAudioPath tempDir : string.
Hypothesis audio_outside_tempDir : is_under tempDir audioPath = false.

Lemma extract_tasks_independent silencePerChunk audioChunks :
  independent (map fst (mapi (Batch.extract_task audioPath tempDir silencePerChunk)
                          audioChunks)).
Proof.
  unfold mapi. rewrite mapi_from_map. intros r r' p Hr Hr' Hp.
  destruct (In_mapi_from _ _ _ _ Hr) as (x & i & -> & _).
  destruct (In_mapi_from _ _ _ _ Hr') as (x' & i' & -> & _).
  simpl in *. destruct Hp as [<-|[]]. intros Heq. injection Heq as Heq.
  pose proof (numbered_is_under tempDir "chunk-" i') as Hunder.
  rewrite Heq in Hunder. congruence.
Qed.

Lemma merge_tasks_independent (silence : JS.num) (audioChunks : list Chunk) :
  independent (map fst (mapi_from 0
    (fun (_ : Chunk) i =>
       Batch.merge_task tempDir (Batch.numbered tempDir "chunk-" i, silence) i)
    audioChunks)).
Proof.
  rewrite mapi_from_map. intros r r' p Hr Hr' Hp.
  destruct (In_mapi_from _ _ _ _ Hr) as (x & i & -> & _).
  destruct (In_mapi_from _ _ _ _ Hr') as (x' & i' & -> & _).
  simpl in *. destruct Hp as [<-|[]]. intros Heq. injection Heq as Heq.
  symmetry in Heq. exact (chunk_is_not_merged _ _ _ Heq).
Qed.

(** When every request ends, the padded track is the concatenation, in
    the order of [audioChunks], of each chunk followed by one silence of
    [Math.min(silencePerChunk, 5)] seconds. *)
Lemma extendAudioWithSilence_contents videoDuration lines audioChunks audioDuration w :
  silencedetect E audioPath = (lines, None) ->
  Analyzer.audioChunks_of (Scraper.scrape lines) = (audioChunks, audioDuration) ->
  let silence :=
    JS.Math_min (JS.div (videoDuration - audioDuration)
                   (inject_Z (Z.of_nat (List.length audioChunks)))) 5 in
  let outcome :=
    TempDir.extendAudioWithSilence E audioPath videoDuration outputAudioPath tempDir w in
  fst outcome = Resolved outputAudioPath
  /\ content (snd outcome) outputAudioPath
     = Cat (map (fun chunk =>
                   Cat [Cut (content w audioPath) (chunk_start chunk)
                          (chunk_end chunk - chunk_start chunk);
                        Silence silence]) audioChunks).
Proof.
  intros Hdetect Hchunks silence outcome. subst outcome.
  unfold TempDir.extendAudioWithSilence, then_, detectSilences.
  rewrite Hdetect. cbv beta iota zeta. rewrite Hchunks. cbv beta iota zeta.
  fold silence.
  set (spc := JS.div (videoDuration - audioDuration)
                (inject_Z (Z.of_nat (List.length audioChunks)))) in *.
  set (w1 := log (SilenceDetect audioPath) w).
  rewrite extract_batch.
  set (tasks1 := mapi (Batch.extract_task audioPath tempDir spc) audioChunks).
  destruct (save_all_contents E every_request_ends tasks1 w1
              (extract_tasks_independent spc audioChunks))
    as (Hres1 & _ & Hown1).
  destruct (Batch.save_all E tasks1 w1) as [r1 w2]. simpl in Hres1, Hown1. subst r1.
  rewrite merge_batch.
  assert (Htasks2 : mapi (Batch.merge_task tempDir) (map snd tasks1)
    = mapi_from 0 (fun (_ : Chunk) i =>
        Batch.merge_task tempDir (Batch.numbered tempDir "chunk-" i, silence) i)
        audioChunks).
  { unfold tasks1, mapi. rewrite mapi_from_map, mapi_from_mapi_from. reflexivity. }
  rewrite Htasks2.
  set (tasks2 := mapi_from 0 _ audioChunks) in *.
  destruct (save_all_contents E every_request_ends tasks2 w2
              (merge_tasks_independent silence audioChunks))
    as (Hres2 & _ & Hown2).
  destruct (Batch.save_all E tasks2 w2) as [r2 w3]. simpl in Hres2, Hown2. subst r2.
  rewrite (ffmpeg_save_ends E every_request_ends). simpl. split; [reflexivity|].
  rewrite content_write_same. f_equal.
  assert (Hnodup1 : NoDup (map target (map fst tasks1))).
  { unfold tasks1, mapi. rewrite !mapi_from_map. apply NoDup_mapi_from.
    intros x y i j Heq. simpl in Heq. injection Heq as Heq.
    exact (numbered_inj _ _ _ _ Heq). }
  assert (Hnodup2 : NoDup (map target (map fst tasks2))).
  { unfold tasks2. rewrite !mapi_from_map. apply NoDup_mapi_from.
    intros x y i j Heq. simpl in Heq. injection Heq as Heq.
    exact (numbered_inj _ _ _ _ Heq). }
  specialize (Hown1 Hnodup1). specialize (Hown2 Hnodup2).
  unfold tasks2 at 1. rewrite !mapi_from_map.
  rewrite <- (mapi_from_no_index _ audioChunks 0).
  apply (mapi_from_ext_in
           (fun chunk i =>
              (Batch.extract_task audioPath tempDir spc chunk i,
               Batch.merge_task tempDir (Batch.numbered tempDir "chunk-" i, silence) i))).
  intros chunk i Hin. simpl.
  assert (Hin1 : In (fst (Batch.extract_task audioPath tempDir spc chunk i))
                   (map fst tasks1)).
  { unfold tasks1, mapi. rewrite mapi_from_map.
    apply (in_map fst) in Hin. rewrite mapi_from_map in Hin.
    apply (in_map fst) in Hin. rewrite mapi_from_map in Hin. exact Hin. }
  assert (Hin2 : In (fst (Batch.merge_task tempDir
                            (Batch.numbered tempDir "chunk-" i, silence) i))
                   (map fst tasks2)).
  { unfold tasks2. rewrite mapi_from_map.
    apply (in_map snd) in Hin. rewrite mapi_from_map in Hin.
    apply (in_map fst) in Hin. rewrite mapi_from_map in Hin. exact Hin. }
  rewrite (Hown2 _ _ _ Hin2 eq_refl). cbn [fst snd].
  rewrite (Hown1 _ _ _ Hin1 eq_refl).
  reflexivity.
Qed.

End Padding.

Lemma silences_of_padded_chunks (source : Media) (silence : JS.num) audioChunks :
  silences (Cat (map (fun chunk =>
                        Cat [Cut source (chunk_start chunk)
                               (chunk_end chunk - chunk_start chunk);
                             Silence silence]) audioChunks))
  = repeat silence (List.length audioChunks).
Proof.
  simpl. induction audioChunks as [|chunk audioChunks IH]; simpl; [reflexivity|].
  rewrite IH. reflexivity.
Qed.

Lemma length_not_zero {A : Type} (l : list A) :
  l <> [] -> ~ (inject_Z (Z.of_nat (List.length l)) == 0)%Q.
Proof.
  intros Hne Hzero. destruct l as [|x l]; [congruence|].
  unfold Qeq in Hzero. simpl in Hzero. lia.
Qed.



(** ** An empty segment list *)

(** C3, as stated, fails: on a track without any detected silence the
    segment list is empty, and with a 12-second video the padded track
    is the concatenation of nothing.  It holds no silence block at all,
    where the claim asks for the audio followed by one block of the full
    deficit. *)
Lemma empty_segment_list_appends_no_silence :
  Analyzer.audioChunks_of (Scraper.scrape Runs.no_pause) = ([], 0)
  /\ TempDir.extendAudioWithSilence (Runs.engine_of (fun _ => 5) Runs.no_pause)
       Runs.audio 12 "/app/tmp/extended-audio.mp3" "/app/tmp" Runs.fresh
     = (Resolved "/app/tmp/extended-audio.mp3",
        mkWorld [] [("/app/tmp/extended-audio.mp3", Cat [])]
          [SilenceDetect Runs.audio; ConcatN [] 0 "/app/tmp/extended-audio.mp3"])
  /\ silences (Cat []) = [].
Proof. repeat split; reflexivity. Qed.

(** C3, amended.  When the detection ends and the segment list is empty,
    nothing guards the division: [silencePerChunk] is the quotient by
    zero, which is not a finite number, and it is never used.  No chunk
    is extracted and no silence is generated; after the detection the
    only request is the concatenation of zero inputs into
    [outputAudioPath], and when that request ends the padded track holds
    no silence block. *)
Theorem empty_segment_list_is_not_guarded (E : Engine)
  (audioPath outputAudioPath tempDir : string) (videoDuration : Q)
  (lines : list string) (audioDuration : Q) (w : World) :
  silencedetect E audioPath = (lines, None) ->
  Analyzer.audioChunks_of (Scraper.scrape lines) = ([], audioDuration) ->
  let outcome :=
    TempDir.extendAudioWithSilence E audioPath videoDuration outputAudioPath tempDir w in
  (forall q, JS.div (videoDuration - audioDuration)
               (inject_Z (Z.of_nat (List.length (@nil Chunk)))) <> JS.Fin q)
  /\ issued (snd outcome)
     = (issued w ++ [SilenceDetect audioPath; ConcatN [] 0 outputAudioPath])%list
  /\ (run E (ConcatN [] 0 outputAudioPath) = None ->
      fst outcome = Resolved outputAudioPath
      /\ content (snd outcome) outputAudioPath = Cat []
      /\ silences (content (snd outcome) outputAudioPath) = []).
Proof.
  intros Hdetect Hchunks outcome.
  split; [intros q; apply div_by_zero_not_finite|].
  subst outcome.
  unfold TempDir.extendAudioWithSilence, then_, detectSilences.
  rewrite Hdetect. cbv beta iota zeta. rewrite Hchunks. simpl.
  unfold ffmpeg_save. simpl.
  destruct (run E (ConcatN [] 0 outputAudioPath)) as [err|]; simpl.
  - split; [rewrite <- app_assoc; reflexivity|]. intros Hends. discriminate.
  - split; [rewrite <- app_assoc; reflexivity|]. intros _.
    split; [reflexivity|].
    rewrite content_write_same. split; reflexivity.
Qed.

Lemma empty_segment_list_is_not_guarded_witness :
  Analyzer.audioChunks_of (Scraper.scrape Runs.no_pause) = ([], 0)
  /\ issued (snd (TempDir.extendAudioWithSilence
                    (Runs.engine_of (fun _ => 5) Runs.no_pause)
                    Runs.audio 12 "/app/tmp/extended-audio.mp3" "/app/tmp" Runs.fresh))
     = [SilenceDetect Runs.audio; ConcatN [] 0 "/app/tmp/extended-audio.mp3"]
  /\ silences (content
       (snd (TempDir.extendAudioWithSilence
               (Runs.engine_of (fun _ => 5) Runs.no_pause)
               Runs.audio 12 "/app/tmp/extended-audio.mp3" "/app/tmp" Runs.fresh))
       "/app/tmp/extended-audio.mp3") = [].
Proof.
  split; [reflexivity|].
  pose proof (empty_segment_list_is_not_guarded
                (Runs.engine_of (fun _ => 5) Runs.no_pause)
                Runs.audio "/app/tmp/extended-audio.mp3" "/app/tmp" 12 Runs.no_pause 0
                Runs.fresh eq_refl eq_refl) as H.
  split; [exact (proj1 (proj2 H))|].
  exact (proj2 (proj2 (proj2 (proj2 H) eq_refl))).
Defined.

(** * Further properties of the scripts *)

(** ** The scraper: which lines produce events, and with which time *)

Lemma strip_prefix_app lit s : Scraper.strip_prefix lit (lit ++ s) = Some s.
Proof.
  induction lit as [|a lit IH]; simpl; [reflexivity|].
  rewrite Ascii.eqb_refl. exact IH.
Qed.

Lemma span_digits_app ds rest :
  Scraper.all_digits ds = true ->
  Scraper.span_digits (ds ++ rest)
  = (ds ++ fst (Scraper.span_digits rest), snd (Scraper.span_digits rest)).
Proof.
  induction ds as [|c ds IH]; simpl; intros Hds.
  - destruct (Scraper.span_digits rest); reflexivity.
  - apply andb_true_iff in Hds. destruct Hds as [Hc Hds].
    rewrite Hc, (IH Hds). reflexivity.
Qed.

Lemma append_empty_r (s : string) : s ++ "" = s.
Proof. induction s as [|c s IH]; simpl; [reflexivity|]. rewrite IH. reflexivity. Qed.

Lemma append_assoc (s t u : string) : (s ++ t) ++ u = s ++ t ++ u.
Proof. induction s as [|c s IH]; simpl; [reflexivity|]. rewrite IH. reflexivity. Qed.

Lemma match_decimal_complete int_part frac_part after :
  int_part <> "" -> frac_part <> "" ->
  Scraper.all_digits int_part = true -> Scraper.all_digits frac_part = true ->
  exists capture,
    Scraper.match_decimal (int_part ++ "." ++ frac_part ++ after) = Some capture.
Proof.
  intros Hint Hfrac Hdi Hdf. unfold Scraper.match_decimal.
  rewrite (span_digits_app _ _ Hdi). simpl. rewrite append_empty_r.
  destruct int_part as [|c int_part]; [congruence|]. simpl.
  rewrite (span_digits_app _ _ Hdf).
  destruct frac_part as [|d frac_part]; [congruence|]. simpl.
  eexists. reflexivity.
Qed.

Lemma regex_match_skip lit before : forall s capture,
  Scraper.regex_match lit s = Some capture ->
  exists capture', Scraper.regex_match lit (before ++ s) = Some capture'.
Proof.
  induction before as [|c before IH]; intros s capture Hs; simpl.
  - exists capture. exact Hs.
  - destruct (Scraper.match_here lit (String c (before ++ s))) as [found|].
    + exists found. reflexivity.
    + exact (IH _ _ Hs).
Qed.

Lemma regex_match_complete lit line :
  Scraper.has_decimal_timestamp lit line ->
  exists capture, Scraper.regex_match lit line = Some capture.
Proof.
  intros (before & i & f & after & -> & Hi & Hf & Hdi & Hdf).
  destruct (match_decimal_complete i f after Hi Hf Hdi Hdf) as [capture Hcapture].
  apply (regex_match_skip lit before _ capture).
  assert (Hhere : Scraper.match_here lit (lit ++ i ++ "." ++ f ++ after) = Some capture).
  { unfold Scraper.match_here. rewrite strip_prefix_app. exact Hcapture. }
  destruct (lit ++ i ++ "." ++ f ++ after); simpl; rewrite Hhere; reflexivity.
Qed.

Lemma on_stderr_appends silenceTimes line :
  Scraper.on_stderr silenceTimes line
  = (silenceTimes ++ Scraper.on_stderr [] line)%list.
Proof.
  unfold Scraper.on_stderr.
  destruct (Scraper.regex_match "silence_start: " line);
    destruct (Scraper.regex_match "silence_end: " line); simpl;
    rewrite <- ?app_assoc, ?app_nil_r; reflexivity.
Qed.

(** X1.  The ['stderr'] handler pushes something exactly for the lines
    that contain [silence_start: ] or [silence_end: ] followed by digits,
    a dot and digits: such a line always produces an event, wherever the
    pattern stands in the line, and no other line does. *)
Theorem on_stderr_pushes_iff_decimal_timestamp silenceTimes line :
  Scraper.on_stderr silenceTimes line <> silenceTimes
  <-> (Scraper.has_decimal_timestamp "silence_start: " line
       \/ Scraper.has_decimal_timestamp "silence_end: " line).
Proof.
  split.
  - intros Hpush. unfold Scraper.on_stderr in Hpush.
    destruct (Scraper.regex_match "silence_start: " line) as [c1|] eqn:Hstart.
    + left. exact (regex_match_shape _ _ _ Hstart).
    + destruct (Scraper.regex_match "silence_end: " line) as [c2|] eqn:Hend.
      * right. exact (regex_match_shape _ _ _ Hend).
      * congruence.
  - intros Hhas Heq. rewrite on_stderr_appends in Heq.
    apply (f_equal (@List.length SilenceEvent)) in Heq.
    rewrite length_app in Heq.
    assert (Hlen : (0 < List.length (Scraper.on_stderr [] line))%nat).
    { unfold Scraper.on_stderr. destruct Hhas as [Hhas|Hhas];
        destruct (regex_match_complete _ _ Hhas) as [capture Hcapture];
        rewrite Hcapture.
      - destruct (Scraper.regex_match "silence_end: " line); simpl; lia.
      - destruct (Scraper.regex_match "silence_start: " line); simpl; lia. }
    lia.
Qed.

Lemma scrape_from lines : forall silenceTimes,
  fold_left Scraper.on_stderr lines silenceTimes
  = (silenceTimes ++ Scraper.scrape lines)%list.
Proof.
  unfold Scraper.scrape.
  induction lines as [|line lines IH]; intros silenceTimes; simpl.
  - symmetry. apply app_nil_r.
  - rewrite (IH (Scraper.on_stderr silenceTimes line)),
            (IH (Scraper.on_stderr [] line)), on_stderr_appends.
    symmetry. apply app_assoc.
Qed.

Lemma on_stderr_at_most_two line :
  (List.length (Scraper.on_stderr [] line) <= 2)%nat.
Proof.
  unfold Scraper.on_stderr.
  destruct (Scraper.regex_match "silence_start: " line);
    destruct (Scraper.regex_match "silence_end: " line); simpl; lia.
Qed.

(** X2.  The handler keeps no state between lines: the events of a
    stream are the events of its first part followed by those of the
    rest.  A line contributes at most two events, and when it reports
    both a start and an end the start comes first. *)
Theorem scrape_is_line_by_line (lines lines' : list string) :
  Scraper.scrape (lines ++ lines')
  = (Scraper.scrape lines ++ Scraper.scrape lines')%list
  /\ (List.length (Scraper.scrape lines) <= 2 * List.length lines)%nat
  /\ (forall line,
        Scraper.on_stderr [] line = []
        \/ (exists e, Scraper.on_stderr [] line = [e])
        \/ (exists s e, Scraper.on_stderr [] line = [s; e]
                        /\ type s = start_ /\ type e = end_)).
Proof.
  split; [|split].
  - unfold Scraper.scrape at 1. rewrite fold_left_app.
    apply scrape_from.
  - induction lines as [|line lines IH]; simpl; [lia|].
    unfold Scraper.scrape. simpl. rewrite scrape_from, length_app.
    pose proof (on_stderr_at_most_two line). lia.
  - intros line. unfold Scraper.on_stderr.
    destruct (Scraper.regex_match "silence_start: " line) as [c1|];
      destruct (Scraper.regex_match "silence_end: " line) as [c2|]; simpl.
    + right. right. eexists. eexists. split; [reflexivity|]. split; reflexivity.
    + right. left. eexists. reflexivity.
    + right. left. eexists. reflexivity.
    + left. reflexivity.
Qed.

Lemma parseFloat_nonnegative capture : (0 <= Scraper.parseFloat capture)%Q.
Proof.
  unfold Scraper.parseFloat.
  destruct (Scraper.span_digits capture) as [int_part rest].
  assert (Hint : (0 <= inject_Z (Z.of_N (Scraper.digits_value 0 int_part)))%Q).
  { unfold Qle. simpl. lia. }
  destruct rest as [|c rest]; [exact Hint|].
  destruct (Ascii.eqb c ".") eqn:Hc.
  - apply Ascii.eqb_eq in Hc. subst c.
    destruct (Scraper.span_digits rest) as [frac_part after].
    apply (Qle_trans _ (0 + 0)); [apply Qle_refl|].
    apply Qplus_le_compat; [exact Hint|].
    unfold Qle. simpl. lia.
  - destruct c as [[] [] [] [] [] [] [] []]; try exact Hint. discriminate Hc.
Qed.

(** X3.  Every scraped event has a non-negative time: the patterns
    capture digits only, so a sign is never read. *)
Theorem scraped_times_are_nonnegative (lines : list string) :
  Forall (fun event => (0 <= time event)%Q) (Scraper.scrape lines).
Proof.
  induction lines as [|line lines IH]; [constructor|].
  unfold Scraper.scrape. simpl. rewrite scrape_from.
  apply Forall_app. split; [|exact IH].
  unfold Scraper.on_stderr.
  destruct (Scraper.regex_match "silence_start: " line) as [c1|];
    destruct (Scraper.regex_match "silence_end: " line) as [c2|]; simpl;
    repeat constructor; simpl; apply parseFloat_nonnegative.
Qed.

Lemma span_digits_rest s : Reading.no_leading_digit (snd (Scraper.span_digits s)).
Proof.
  induction s as [|c s IH]; simpl; [exact I|].
  destruct (Scraper.is_digit c) eqn:Hc.
  - destruct (Scraper.span_digits s) as [ds rest]. exact IH.
  - simpl. exact Hc.
Qed.

Lemma match_decimal_maximal s capture :
  Scraper.match_decimal s = Some capture ->
  exists int_part frac_part after : string,
    s = int_part ++ "." ++ frac_part ++ after
    /\ capture = int_part ++ "." ++ frac_part
    /\ int_part <> "" /\ frac_part <> ""
    /\ Scraper.all_digits int_part = true /\ Scraper.all_digits frac_part = true
    /\ Reading.no_leading_digit after.
Proof.
  unfold Scraper.match_decimal.
  destruct (span_digits_spec s) as [Hs Hint].
  destruct (Scraper.span_digits s) as [int_part rest]. simpl in Hs, Hint.
  destruct int_part as [|c int_part]; [discriminate|].
  destruct rest as [|dot rest']; [discriminate|].
  destruct (Ascii.eqb dot ".") eqn:Hdot.
  - apply Ascii.eqb_eq in Hdot. subst dot.
    destruct (span_digits_spec rest') as [Hrest Hfrac].
    pose proof (span_digits_rest rest') as Hafter.
    destruct (Scraper.span_digits rest') as [frac_part after].
    simpl in Hrest, Hfrac, Hafter.
    destruct frac_part as [|d frac_part]; [discriminate|].
    intros Hsome. injection Hsome as <-.
    exists (String c int_part), (String d frac_part), after.
    repeat split; try discriminate; try assumption.
    rewrite Hs, Hrest. reflexivity.
  - intros Hsome. exfalso.
    destruct dot as [[] [] [] [] [] [] [] []]; try discriminate Hsome.
    discriminate Hdot.
Qed.

Lemma regex_match_maximal lit line capture :
  Scraper.regex_match lit line = Some capture ->
  exists before int_part frac_part after : string,
    line = before ++ lit ++ int_part ++ "." ++ frac_part ++ after
    /\ capture = int_part ++ "." ++ frac_part
    /\ int_part <> "" /\ frac_part <> ""
    /\ Scraper.all_digits int_part = true /\ Scraper.all_digits frac_part = true
    /\ Reading.no_leading_digit after.
Proof.
  assert (Hhere : forall s found, Scraper.match_here lit s = Some found ->
    exists int_part frac_part after : string,
      s = lit ++ int_part ++ "." ++ frac_part ++ after
      /\ found = int_part ++ "." ++ frac_part
      /\ int_part <> "" /\ frac_part <> ""
      /\ Scraper.all_digits int_part = true /\ Scraper.all_digits frac_part = true
      /\ Reading.no_leading_digit after).
  { intros s found Hfound. unfold Scraper.match_here in Hfound.
    destruct (Scraper.strip_prefix lit s) as [rest|] eqn:Hstrip; [|discriminate].
    apply strip_prefix_spec in Hstrip.
    apply match_decimal_maximal in Hfound.
    destruct Hfound as (i & f & after & Hrest & Hrem).
    exists i, f, after. subst rest. split; [exact Hstrip|exact Hrem]. }
  induction line as [|c line IH]; simpl.
  - destruct (Scraper.match_here lit "") as [found|] eqn:Hfound; [|discriminate].
    intros Hsome. injection Hsome as <-.
    destruct (Hhere _ _ Hfound) as (i & f & after & Hline & Hrem).
    exists "", i, f, after. split; [exact Hline|exact Hrem].
  - destruct (Scraper.match_here lit (String c line)) as [found|] eqn:Hfound.
    + intros Hsome. injection Hsome as <-.
      destruct (Hhere _ _ Hfound) as (i & f & after & Hline & Hrem).
      exists "", i, f, after. split; [exact Hline|exact Hrem].
    + intros Hrec. destruct (IH Hrec) as (before & i & f & after & Hline & Hrem).
      exists (String c before), i, f, after. split; [|exact Hrem].
      rewrite Hline. reflexivity.
Qed.

Lemma digits_reading s : forall acc,
  Scraper.all_digits s = true ->
  exists d, NilEmpty.uint_of_string s = Some d
            /\ N.to_nat (Scraper.digits_value acc s) = Nat.of_uint_acc d (N.to_nat acc).
Proof.
  induction s as [|c s IH]; intros acc Hs.
  - exists Decimal.Nil. split; reflexivity.
  - simpl in Hs. apply andb_true_iff in Hs. destruct Hs as [Hc Hs].
    destruct (IH (10 * acc + (N_of_ascii c - 48))%N Hs) as (d & Hd & Hval).
    change (Scraper.digits_value acc (String c s))
      with (Scraper.digits_value (10 * acc + (N_of_ascii c - 48))%N s).
    change (NilEmpty.uint_of_string (String c s))
      with (uint_of_char c (NilEmpty.uint_of_string s)).
    rewrite Hd, Hval. clear Hval IH Hd Hs.
    destruct c as [[] [] [] [] [] [] [] []]; try discriminate Hc;
      eexists; (split; [reflexivity|]);
      cbn [Nat.of_uint_acc]; f_equal; rewrite Nat.tail_mul_spec;
      cbn [N_of_ascii N_of_digits]; lia.
Qed.

Lemma digits_value_reading s d :
  Scraper.all_digits s = true -> NilEmpty.uint_of_string s = Some d ->
  Z.of_N (Scraper.digits_value 0 s) = Z.of_nat (Nat.of_uint d).
Proof.
  intros Hs Hd. destruct (digits_reading s 0%N Hs) as (d' & Hd' & Hval).
  rewrite Hd in Hd'. injection Hd' as <-.
  unfold Nat.of_uint. simpl in Hval. rewrite <- Hval. lia.
Qed.

Lemma parseFloat_decimal int_part frac_part :
  Scraper.all_digits int_part = true -> Scraper.all_digits frac_part = true ->
  Reading.decimal int_part frac_part
  = Some (Scraper.parseFloat (int_part ++ "." ++ frac_part)).
Proof.
  intros Hdi Hdf. unfold Scraper.parseFloat, Reading.decimal.
  rewrite (span_digits_app _ _ Hdi). simpl. rewrite append_empty_r.
  pose proof (span_digits_app frac_part "" Hdf) as Hspan.
  simpl in Hspan. rewrite !append_empty_r in Hspan. rewrite Hspan.
  destruct (digits_reading int_part 0%N Hdi) as (i & Hi & _).
  destruct (digits_reading frac_part 0%N Hdf) as (f & Hf & _).
  rewrite Hi, Hf.
  rewrite (digits_value_reading _ _ Hdi Hi), (digits_value_reading _ _ Hdf Hf).
  reflexivity.
Qed.

(** X4.  When a pattern matches a line, the capture is the text
    [int.frac] that follows the literal, with both digit runs taken as
    far as they go (what comes after is not a digit), and the time
    [parseFloat] gives it is the decimal reading of that text. *)
Theorem capture_is_maximal_decimal_and_parsed_exactly (lit line capture : string) :
  Scraper.regex_match lit line = Some capture ->
  exists before int_part frac_part after : string,
    line = before ++ lit ++ int_part ++ "." ++ frac_part ++ after
    /\ capture = int_part ++ "." ++ frac_part
    /\ int_part <> "" /\ frac_part <> ""
    /\ Reading.no_leading_digit after
    /\ Reading.decimal int_part frac_part = Some (Scraper.parseFloat capture).
Proof.
  intros Hmatch.
  destruct (regex_match_maximal _ _ _ Hmatch)
    as (before & i & f & after & Hline & Hcap & Hi & Hf & Hdi & Hdf & Hafter).
  exists before, i, f, after. repeat split; try assumption.
  rewrite Hcap. apply parseFloat_decimal; assumption.
Qed.

Lemma capture_is_maximal_decimal_and_parsed_exactly_witness :
  Scraper.regex_match "silence_end: "
    "[silencedetect @ 0x55d0] silence_end: 12.50 | silence_duration: 3.25"
  = Some "12.50"
  /\ Reading.decimal "12" "50" = Some (Scraper.parseFloat "12.50")
  /\ exists before int_part frac_part after : string,
       "[silencedetect @ 0x55d0] silence_end: 12.50 | silence_duration: 3.25"
       = before ++ "silence_end: " ++ int_part ++ "." ++ frac_part ++ after
       /\ "12.50" = int_part ++ "." ++ frac_part
       /\ int_part <> "" /\ frac_part <> ""
       /\ Reading.no_leading_digit after
       /\ Reading.decimal int_part frac_part = Some (Scraper.parseFloat "12.50").
Proof.
  split; [reflexivity|]. split; [reflexivity|].
  apply (capture_is_maximal_decimal_and_parsed_exactly "silence_end: "
           "[silencedetect @ 0x55d0] silence_end: 12.50 | silence_duration: 3.25"
           "12.50").
  reflexivity.
Defined.

(** ** The analyzer: invariants of the chunks *)

Lemma forEach_keeps_positive events : forall audioChunks reference,
  Forall (fun chunk => (chunk_start chunk < chunk_end chunk)%Q) audioChunks ->
  Forall (fun chunk => (chunk_start chunk < chunk_end chunk)%Q)
    (fst (fold_left Analyzer.forEach_body events (audioChunks, reference))).
Proof.
  induction events as [|event events IH]; intros audioChunks reference Hpos; simpl.
  - exact Hpos.
  - destruct (type event).
    + destruct (JS.ltb reference (time event)) eqn:Hlt.
      * apply IH. apply Forall_app. split; [exact Hpos|].
        constructor; [|constructor]. simpl. apply ltb_lt. exact Hlt.
      * apply IH. exact Hpos.
    + apply IH. exact Hpos.
Qed.

Lemma audioChunks_positive silenceTimes :
  Forall (fun chunk => (chunk_start chunk < chunk_end chunk)%Q)
    (fst (Analyzer.audioChunks_of silenceTimes)).
Proof.
  rewrite audioChunks_of_forEach. unfold Analyzer.forEach.
  apply forEach_keeps_positive. constructor.
Qed.

Lemma In_mapi_from_member {A B : Type} (f : A -> nat -> B) l : forall k b,
  In b (mapi_from k f l) -> exists x i, In x l /\ b = f x i.
Proof.
  induction l as [|x l IH]; intros k b Hin; simpl in Hin; [contradiction|].
  destruct Hin as [<-|Hin].
  - exists x, k. split; [left; reflexivity|reflexivity].
  - destruct (IH _ _ Hin) as (y & i & Hy & ->).
    exists y, i. split; [right; exact Hy|reflexivity].
Qed.

Section Issues.

Variable E : Engine.
Variable P : Request -> Prop.

Lemma issues_only_resolve {A : Type} (a : A) : issues_only P (resolve a).
Proof.
  intros w. exists []. split; [symmetry; apply app_nil_r|constructor].
Qed.

Lemma issues_only_then {A B : Type} (m : Promise A) (k : A -> Promise B) :
  issues_only P m -> (forall a, issues_only P (k a)) -> issues_only P (then_ m k).
Proof.
  intros Hm Hk w. unfold then_.
  destruct (Hm w) as (rq1 & Hlog1 & Hall1).
  destruct (m w) as [[a|err] w1]; simpl in *.
  - destruct (Hk a w1) as (rq2 & Hlog2 & Hall2).
    exists (rq1 ++ rq2)%list. split.
    + rewrite Hlog2, Hlog1. symmetry. apply app_assoc.
    + apply Forall_app. split; assumption.
  - exists rq1. split; assumption.
Qed.

Lemma issues_only_save {A : Type} r (value : A) :
  P r -> issues_only P (ffmpeg_save E r value).
Proof.
  intros Hr w. exists [r]. split; [apply ffmpeg_save_issued|].
  constructor; [exact Hr|constructor].
Qed.

Lemma issues_only_getDuration filePath :
  P (Ffprobe filePath) -> issues_only P (getDuration E filePath).
Proof.
  intros Hr w. exists [Ffprobe filePath]. split; [reflexivity|].
  constructor; [exact Hr|constructor].
Qed.

Lemma issues_only_detectSilences audioPath :
  P (SilenceDetect audioPath) -> issues_only P (detectSilences E audioPath).
Proof.
  intros Hr w. exists [SilenceDetect audioPath]. unfold detectSilences.
  destruct (silencedetect E audioPath) as [lines outcome]. simpl.
  split; [reflexivity|]. constructor; [exact Hr|constructor].
Qed.

Lemma issues_only_all {A : Type} (ps : list (Promise A)) :
  Forall (issues_only P) ps -> issues_only P (Promise_all ps).
Proof.
  induction ps as [|p ps IH]; intros Hps w; simpl.
  - exists []. split; [symmetry; apply app_nil_r|constructor].
  - inversion Hps as [|? ? Hp Hps']; subst.
    destruct (Hp w) as (rq1 & Hlog1 & Hall1).
    destruct (p w) as [r w1]. simpl in *.
    destruct (IH Hps' w1) as (rq2 & Hlog2 & Hall2).
    destruct (Promise_all ps w1) as [rs w2]. simpl in *.
    exists (rq1 ++ rq2)%list. split.
    + rewrite Hlog2, Hlog1. symmetry. apply app_assoc.
    + apply Forall_app. split; assumption.
Qed.

End Issues.

(** A request that is not an extraction, or is one of positive length. *)
Lemma extendAudioWithSilence_issues_positive_trims (E : Engine)
  audioPath videoDuration outputAudioPath tempDir :
  issues_only
    (fun r => match r with Trim _ _ d _ => (0 < d)%Q | _ => True end)
    (TempDir.extendAudioWithSilence E audioPath videoDuration outputAudioPath tempDir).
Proof.
  unfold TempDir.extendAudioWithSilence.
  apply issues_only_then; [apply issues_only_detectSilences; exact I|].
  intros silenceTimes.
  pose proof (audioChunks_positive silenceTimes) as Hpos.
  destruct (Analyzer.audioChunks_of silenceTimes) as [audioChunks audioDuration].
  simpl in Hpos.
  apply issues_only_then.
  - apply issues_only_all. apply Forall_forall. intros p Hp.
    destruct (In_mapi_from_member _ _ _ _ Hp) as (chunk & i & Hchunk & ->).
    apply issues_only_save.
    rewrite Forall_forall in Hpos. specialize (Hpos chunk Hchunk).
    apply Qlt_minus_iff in Hpos. exact Hpos.
  - intros chunkResults. apply issues_only_then.
    + apply issues_only_all. apply Forall_forall. intros p Hp.
      destruct (In_mapi_from_member _ _ _ _ Hp) as ([c d] & i & _ & ->).
      apply issues_only_save. exact I.
    + intros mergedFiles. apply issues_only_save. exact I.
Qed.

(** X5.  Every chunk the analyzer returns has a positive length, for
    every event sequence, and therefore every extraction that
    [extendAudioWithSilence] requests, under any engine, has a strictly
    positive duration: an empty or reversed span is never extracted. *)
Theorem extractions_have_positive_length (E : Engine)
  (audioPath outputAudioPath tempDir : string) (videoDuration : Q) (w : World) :
  (forall silenceTimes,
     Forall (fun chunk => (chunk_start chunk < chunk_end chunk)%Q)
       (fst (Analyzer.audioChunks_of silenceTimes)))
  /\ exists requests,
       issued (snd (TempDir.extendAudioWithSilence E audioPath videoDuration
                      outputAudioPath tempDir w))
       = (issued w ++ requests)%list
       /\ Forall (fun r => match r with Trim _ _ d _ => (0 < d)%Q | _ => True end)
            requests.
Proof.
  split; [exact audioChunks_positive|].
  apply extendAudioWithSilence_issues_positive_trims.
Qed.

Lemma last_cons {A : Type} (a : A) l : forall d, last (a :: l) d = last l a.
Proof.
  revert a. induction l as [|b l IH]; intros a d; [reflexivity|].
  change (last (a :: b :: l) d) with (last (b :: l) d).
  rewrite (IH b d), (IH b a). reflexivity.
Qed.

Lemma forEach_reference events : forall audioChunks reference,
  snd (fold_left Analyzer.forEach_body events (audioChunks, reference))
  = last (map time (filter Reading.is_end events)) reference.
Proof.
  induction events as [|event events IH]; intros audioChunks reference; simpl.
  - reflexivity.
  - unfold Reading.is_end at 1. destruct (type event).
    + destruct (JS.ltb reference (time event)); apply IH.
    + rewrite IH. simpl map. rewrite last_cons. reflexivity.
Qed.

Lemma forEach_count events : forall audioChunks reference,
  (List.length (fst (fold_left Analyzer.forEach_body events (audioChunks, reference)))
   <= List.length audioChunks + List.length (filter Reading.is_start events))%nat.
Proof.
  induction events as [|event events IH]; intros audioChunks reference; simpl.
  - lia.
  - unfold Reading.is_start at 1. destruct (type event).
    + destruct (JS.ltb reference (time event)).
      * specialize (IH (audioChunks ++ [mkChunk reference (time event)])%list reference).
        rewrite length_app in IH. simpl in *. lia.
      * specialize (IH audioChunks reference). simpl. lia.
    + apply IH.
Qed.

(** X6.  The [audioDuration] that the chunked padding subtracts from the
    video duration is the time of the last End event of the stream (0
    when there is none), whatever the Starts are; and the analyzer
    returns at most one chunk per Start event. *)
Theorem audioDuration_is_last_silence_end (silenceTimes : list SilenceEvent) :
  snd (Analyzer.audioChunks_of silenceTimes)
  = last (map time (filter Reading.is_end silenceTimes)) 0
  /\ (List.length (fst (Analyzer.audioChunks_of silenceTimes))
      <= List.length (filter Reading.is_start silenceTimes))%nat.
Proof.
  rewrite audioChunks_of_forEach. unfold Analyzer.forEach. split.
  - apply forEach_reference.
  - apply (forEach_count silenceTimes [] 0).
Qed.

(** ** The chunked padding: how much silence is inserted *)

Lemma capped_share_total (n : Z) (d : Q) :
  (0 < n)%Z ->
  (inject_Z n * Qmin (d / inject_Z n) 5 == Qmin d (5 * inject_Z n))%Q.
Proof.
  intros Hn.
  assert (Hpos : (0 < inject_Z n)%Q) by (unfold Qlt; simpl; lia).
  assert (Hne : ~ (inject_Z n == 0)%Q).
  { intros H0. rewrite H0 in Hpos. exact (Qlt_irrefl _ Hpos). }
  destruct (Qlt_le_dec 5 (d / inject_Z n)) as [Hcap|Hfit].
  - assert (Hbig : (5 * inject_Z n <= d)%Q).
    { apply Qlt_le_weak in Hcap.
      apply (Qmult_le_compat_r _ _ (inject_Z n)) in Hcap;
        [|apply Qlt_le_weak; exact Hpos].
      assert (Heq : (d / inject_Z n * inject_Z n == d)%Q).
      { rewrite Qmult_comm, Qmult_div_r by exact Hne. reflexivity. }
      rewrite Heq in Hcap. exact Hcap. }
    rewrite (Q.min_r _ _ (Qlt_le_weak _ _ Hcap)), (Q.min_r _ _ Hbig).
    apply Qmult_comm.
  - assert (Hsmall : (d <= 5 * inject_Z n)%Q).
    { apply (Qmult_le_compat_r _ _ (inject_Z n)) in Hfit;
        [|apply Qlt_le_weak; exact Hpos].
      assert (Heq : (d / inject_Z n * inject_Z n == d)%Q).
      { rewrite Qmult_comm, Qmult_div_r by exact Hne. reflexivity. }
      rewrite Heq in Hfit. exact Hfit. }
    rewrite (Q.min_l _ _ Hfit), (Q.min_l _ _ Hsmall).
    rewrite Qmult_div_r by exact Hne. reflexivity.
Qed.

Lemma negative_share (n : Z) (d : Q) :
  (0 < n)%Z -> (d < 0)%Q -> (Qmin (d / inject_Z n) 5 < 0)%Q.
Proof.
  intros Hn Hd.
  assert (Hpos : (0 < inject_Z n)%Q) by (unfold Qlt; simpl; lia).
  apply (Qle_lt_trans _ (d / inject_Z n)); [apply Q.le_min_l|].
  apply Qlt_shift_div_r; [exact Hpos|]. rewrite Qmult_0_l. exact Hd.
Qed.

(** X7.  Chunked padding, when every request ends and the segment list
    is not empty: every inserted silence has the same length [s], and
    the total [gapCount * s] is [min(deficit, 5 * gapCount)] for the
    deficit [videoDuration - audioDuration].  So the padding never
    exceeds the deficit, it falls short of it as soon as the deficit is
    larger than five seconds per segment, and when the video is shorter
    than [audioDuration] each silence is requested with a negative
    length. *)
Theorem chunked_padding_total_is_capped_deficit (E : Engine)
  (audioPath outputAudioPath tempDir : string) (videoDuration : Q)
  (lines : list string) (audioChunks : list Chunk) (audioDuration : Q) (w : World) :
  (forall r, run E r = None) ->
  is_under tempDir audioPath = false ->
  silencedetect E audioPath = (lines, None) ->
  Analyzer.audioChunks_of (Scraper.scrape lines) = (audioChunks, audioDuration) ->
  audioChunks <> [] ->
  let gapCount := inject_Z (Z.of_nat (List.length audioChunks)) in
  let deficit := (videoDuration - audioDuration)%Q in
  exists s : Q,
    silences (content
      (snd (TempDir.extendAudioWithSilence E audioPath videoDuration outputAudioPath
              tempDir w)) outputAudioPath)
    = repeat (JS.Fin s) (List.length audioChunks)
    /\ (gapCount * s == Qmin deficit (5 * gapCount))%Q
    /\ (gapCount * s <= deficit)%Q
    /\ (deficit < 0 -> s < 0)%Q.
Proof.
  intros Hends Houtside Hdetect Hchunks Hne gapCount deficit.
  destruct (extendAudioWithSilence_contents E Hends audioPath outputAudioPath tempDir
              Houtside videoDuration lines audioChunks audioDuration w Hdetect Hchunks)
    as [_ Hcontent].
  rewrite (div_finite _ _ (length_not_zero audioChunks Hne)) in Hcontent.
  simpl JS.Math_min in Hcontent.
  assert (Hn : (0 < Z.of_nat (List.length audioChunks))%Z).
  { destruct audioChunks; [congruence|]. simpl. lia. }
  exists (Qmin (deficit / gapCount) 5).
  split; [rewrite Hcontent; apply silences_of_padded_chunks|].
  split; [apply capped_share_total; exact Hn|].
  split.
  - unfold gapCount. rewrite (capped_share_total _ deficit Hn). apply Q.le_min_l.
  - intros Hneg. apply negative_share; assumption.
Qed.

Lemma chunked_padding_total_is_capped_deficit_witness :
  exists s : Q,
    silences (content
      (snd (TempDir.extendAudioWithSilence
              (Runs.engine_of (fun _ => 10) Runs.two_pauses)
              Runs.audio 5 "/app/tmp/extended-audio.mp3" "/app/tmp" Runs.fresh))
      "/app/tmp/extended-audio.mp3")
    = repeat (JS.Fin s) 2
    /\ (inject_Z 2 * s == Qmin (5 - (95 # 10)) (5 * inject_Z 2))%Q
    /\ (inject_Z 2 * s <= 5 - (95 # 10))%Q
    /\ (5 - (95 # 10) < 0 -> s < 0)%Q.
Proof.
  exact (chunked_padding_total_is_capped_deficit
           (Runs.engine_of (fun _ => 10) Runs.two_pauses)
           Runs.audio "/app/tmp/extended-audio.mp3" "/app/tmp" 5 Runs.two_pauses
           [mkChunk 0 (25 # 10); mkChunk (45 # 10) (925 # 100)] (95 # 10) Runs.fresh
           (fun _ => eq_refl) eq_refl eq_refl eq_refl
           (fun H => eq_ind [] (fun l => match l with [] => True | _ :: _ => False end)
                       I _ (eq_sym H))).
Defined.

(** ** Which files a run writes *)

Section Untouched.

Variable E : Engine.
Variable q : string.

Lemma untouched_resolve {A : Type} (a : A) : untouched q (resolve a).
Proof. intros w. reflexivity. Qed.

Lemma untouched_then {A B : Type} (m : Promise A) (k : A -> Promise B) :
  untouched q m -> (forall a, untouched q (k a)) -> untouched q (then_ m k).
Proof.
  intros Hm Hk w. unfold then_. specialize (Hm w).
  destruct (m w) as [[a|err] w1]; simpl in *.
  - rewrite (Hk a w1). exact Hm.
  - exact Hm.
Qed.

Lemma untouched_save {A : Type} r (value : A) :
  target r <> Some q -> untouched q (ffmpeg_save E r value).
Proof.
  intros Hr w. unfold ffmpeg_save.
  destruct (run E r); [reflexivity|].
  pose proof (product_target w r) as Ht.
  destruct (product w r) as [[out m]|]; [|reflexivity].
  simpl. destruct (String.eqb q out) eqn:Hq; [|reflexivity].
  apply String.eqb_eq in Hq. subst out. contradiction.
Qed.

Lemma untouched_getDuration filePath : untouched q (getDuration E filePath).
Proof. intros w. reflexivity. Qed.

Lemma untouched_detectSilences audioPath : untouched q (detectSilences E audioPath).
Proof.
  intros w. unfold detectSilences.
  destruct (silencedetect E audioPath). reflexivity.
Qed.

Lemma untouched_all {A : Type} (ps : list (Promise A)) :
  Forall (untouched q) ps -> untouched q (Promise_all ps).
Proof.
  induction ps as [|p ps IH]; intros Hps w; simpl; [reflexivity|].
  inversion Hps as [|? ? Hp Hps']; subst.
  specialize (Hp w). destruct (p w) as [r w1]. simpl in Hp.
  specialize (IH Hps' w1). destruct (Promise_all ps w1) as [rs w2]. simpl in *.
  rewrite IH. exact Hp.
Qed.

Lemma extendAudioWithSilence_untouched audioPath videoDuration outputAudioPath tempDir :
  (forall i, q <> Batch.numbered tempDir "chunk-" i) ->
  (forall i, q <> Batch.numbered tempDir "merged-" i) ->
  q <> outputAudioPath ->
  untouched q (TempDir.extendAudioWithSilence E audioPath videoDuration
                 outputAudioPath tempDir).
Proof.
  intros Hchunk Hmerged Hout. unfold TempDir.extendAudioWithSilence.
  apply untouched_then; [apply untouched_detectSilences|].
  intros silenceTimes.
  destruct (Analyzer.audioChunks_of silenceTimes) as [audioChunks audioDuration].
  apply untouched_then.
  - apply untouched_all. apply Forall_forall. intros p Hp.
    destruct (In_mapi_from_member _ _ _ _ Hp) as (chunk & i & _ & ->).
    apply untouched_save. simpl. intros Heq. injection Heq as Heq.
    exact (Hchunk i (eq_sym Heq)).
  - intros chunkResults. apply untouched_then.
    + apply untouched_all. apply Forall_forall. intros p Hp.
      destruct (In_mapi_from_member _ _ _ _ Hp) as ([c d] & i & _ & ->).
      apply untouched_save. simpl. intros Heq. injection Heq as Heq.
      exact (Hmerged i (eq_sym Heq)).
    + intros mergedFiles. apply untouched_save. simpl. congruence.
Qed.

End Untouched.

Lemma joined_is_under dir name : is_under dir (path_join dir name) = true.
Proof.
  unfold is_under, path_join.
  induction dir as [|c dir IH]; simpl.
  - destruct (ascii_dec "/" "/") as [_|Hne]; [|congruence].
    destruct name; reflexivity.
  - destruct (ascii_dec c c) as [_|Hne]; [exact IH|congruence].
Qed.

Lemma outside_is_not_joined dir name p :
  is_under dir p = false -> p <> path_join dir name.
Proof.
  intros Hp ->. rewrite joined_is_under in Hp. discriminate.
Qed.

Lemma lookup_rmSync dir p w :
  is_under dir p = false ->
  lookup p (files (rmSync dir w)) = lookup p (files w).
Proof.
  intros Hp. unfold rmSync. simpl.
  induction (files w) as [|[p' m] fs IH]; simpl; [reflexivity|].
  destruct (is_under dir p') eqn:Hp'; simpl.
  - destruct (String.eqb p p') eqn:Heq; [|exact IH].
    apply String.eqb_eq in Heq. subst p'. congruence.
  - rewrite IH. reflexivity.
Qed.

Lemma merge_steps_untouched (E : Engine) q videoPath audioPath outputPath tempDir :
  is_under tempDir q = false -> q <> outputPath ->
  untouched q (TempDir.merge_steps E videoPath audioPath outputPath tempDir).
Proof.
  intros Hq Hout. unfold TempDir.merge_steps.
  apply untouched_then; [apply untouched_getDuration|]. intros videoDuration.
  apply untouched_then; [apply untouched_getDuration|]. intros audioDuration.
  apply untouched_then.
  { apply extendAudioWithSilence_untouched.
    - intros i. apply outside_is_not_joined. exact Hq.
    - intros i. apply outside_is_not_joined. exact Hq.
    - apply outside_is_not_joined. exact Hq. }
  intros _. apply untouched_then.
  { unfold TempDir.loopVideo. destruct (JS.leb audioDuration videoDuration).
    - apply untouched_resolve.
    - apply untouched_save. simpl. intros Heq. injection Heq as Heq.
      exact (outside_is_not_joined _ _ _ Hq (eq_sym Heq)). }
  intros _. apply untouched_save. simpl. congruence.
Qed.

(** X8.  Under any engine and whatever fails, a run of
    [mergeAudioVideo] changes no file outside its temporary directory
    other than [outputPath]: the input files and every other file keep
    what they held. *)
Theorem mergeAudioVideo_writes_only_the_output (E : Engine)
  (dirname randomHex videoPath audioPath outputPath q : string) (w : World) :
  is_under (path_join dirname randomHex) q = false ->
  q <> outputPath ->
  lookup q (files (snd (TempDir.mergeAudioVideo E dirname randomHex videoPath
                          audioPath outputPath w)))
  = lookup q (files w).
Proof.
  intros Hq Hout.
  unfold TempDir.mergeAudioVideo, TempDir.createTempDirectory, finally, try_catch.
  set (tempDir := path_join dirname (TempDir.generateRandomFolderName randomHex)).
  pose proof (merge_steps_untouched E q videoPath audioPath outputPath tempDir
                Hq Hout (mkdirSync tempDir w)) as Hsteps.
  destruct (TempDir.merge_steps E videoPath audioPath outputPath tempDir
              (mkdirSync tempDir w)) as [[[]|err] w1]; cbn [fst snd resolve] in *;
    rewrite (lookup_rmSync tempDir q _ Hq); exact Hsteps.
Qed.

Lemma mergeAudioVideo_writes_only_the_output_witness :
  lookup Runs.audio
    (files (snd (TempDir.mergeAudioVideo
                   (Runs.engine_of (fun _ => 10) Runs.one_pause) "/app" "tmp"
                   Runs.video Runs.audio Runs.output
                   (mkWorld [] [(Runs.audio, Original "recording")] []))))
  = Some (Original "recording").
Proof.
  exact (mergeAudioVideo_writes_only_the_output
           (Runs.engine_of (fun _ => 10) Runs.one_pause) "/app" "tmp"
           Runs.video Runs.audio Runs.output Runs.audio
           (mkWorld [] [(Runs.audio, Original "recording")] [])
           eq_refl
           (fun H : Runs.audio = Runs.output =>
              eq_ind Runs.audio
                (fun s => match s with
                          | String _ (String _ (String _ (String _ (String _
                              (String "i" _))))) => True
                          | _ => False
                          end) I _ H)).
Defined.

(** ** What a successful run of the last iteration produces *)

Lemma content_log_same r w p : content (log r w) p = content w p.
Proof. reflexivity. Qed.

Lemma content_of_lookup w w' p :
  lookup p (files w') = lookup p (files w) -> content w' p = content w p.
Proof. unfold content. intros ->. reflexivity. Qed.

Lemma extended_is_not_looped tempDir :
  path_join tempDir "extended-audio.mp3" <> path_join tempDir "looped-video.mp4".
Proof.
  unfold path_join. intros H. apply append_cancel_l in H. discriminate.
Qed.

Lemma looped_is_not_numbered tempDir family i :
  family = "chunk-" \/ family = "merged-" ->
  path_join tempDir "looped-video.mp4" <> Batch.numbered tempDir family i.
Proof.
  unfold Batch.numbered, path_join. intros [->| ->] H;
    apply append_cancel_l in H; discriminate.
Qed.

Section Successful_run.

Variable E : Engine.
Hypothesis every_request_ends : forall r, run E r = None.

Variables videoPath audioPath outputPath tempDir : string.
Variables videoDuration audioDuration : Q.
Variable lines : list string.
Variable audioChunks : list Chunk.
Variable lastEnd : Q.

Hypothesis video_probed : ffprobe E videoPath = Resolved videoDuration.
Hypothesis audio_probed : ffprobe E audioPath = Resolved audioDuration.
Hypothesis detection_ends : silencedetect E audioPath = (lines, None).
Hypothesis chunks_found :
  Analyzer.audioChunks_of (Scraper.scrape lines) = (audioChunks, lastEnd).
Hypothesis audio_outside : is_under tempDir audioPath = false.
Hypothesis video_outside : is_under tempDir videoPath = false.

Lemma merge_steps_output w :
  let silence :=
    JS.Math_min (JS.div (videoDuration - lastEnd)
                   (inject_Z (Z.of_nat (List.length audioChunks)))) 5 in
  let padded :=
    Cat (map (fun chunk =>
                Cat [Cut (content w audioPath) (chunk_start chunk)
                       (chunk_end chunk - chunk_start chunk);
                     Silence silence]) audioChunks) in
  let shown :=
    if JS.leb audioDuration videoDuration
    then content w (path_join tempDir "looped-video.mp4")
    else Looped (content w videoPath)
           (JS.sub (JS.Math_ceil (JS.div audioDuration videoDuration)) 1)
           audioDuration in
  fst (TempDir.merge_steps E videoPath audioPath outputPath tempDir w) = Resolved tt
  /\ content (snd (TempDir.merge_steps E videoPath audioPath outputPath tempDir w))
       outputPath
     = Muxed shown padded.
Proof.
  intros silence padded shown.
  unfold TempDir.merge_steps, then_, getDuration.
  rewrite video_probed, audio_probed. cbv beta iota zeta.
  set (w2 := log (Ffprobe audioPath) (log (Ffprobe videoPath) w)).
  set (extended := path_join tempDir "extended-audio.mp3").
  set (looped := path_join tempDir "looped-video.mp4").
  destruct (extendAudioWithSilence_contents E every_request_ends audioPath extended
              tempDir audio_outside videoDuration lines audioChunks lastEnd w2
              detection_ends chunks_found) as [Hres Hpadded].
  fold silence in Hpadded.
  change (content w2 audioPath) with (content w audioPath) in Hpadded.
  fold padded in Hpadded.
  assert (Hvideo : content (snd (TempDir.extendAudioWithSilence E audioPath
                                   videoDuration extended tempDir w2)) videoPath
                   = content w videoPath).
  { apply (content_of_lookup w).
    rewrite (extendAudioWithSilence_untouched E videoPath audioPath videoDuration
               extended tempDir).
    - reflexivity.
    - intros i. apply outside_is_not_joined. exact video_outside.
    - intros i. apply outside_is_not_joined. exact video_outside.
    - apply outside_is_not_joined. exact video_outside. }
  assert (Hlooped : content (snd (TempDir.extendAudioWithSilence E audioPath
                                    videoDuration extended tempDir w2)) looped
                    = content w looped).
  { apply (content_of_lookup w).
    rewrite (extendAudioWithSilence_untouched E looped audioPath videoDuration
               extended tempDir).
    - reflexivity.
    - intros i. apply looped_is_not_numbered. left. reflexivity.
    - intros i. apply looped_is_not_numbered. right. reflexivity.
    - intros Heq. exact (extended_is_not_looped tempDir (eq_sym Heq)). }
  destruct (TempDir.extendAudioWithSilence E audioPath videoDuration extended
              tempDir w2) as [r3 w3].
  simpl in Hres, Hpadded, Hvideo, Hlooped. subst r3.
  unfold TempDir.loopVideo. subst shown.
  destruct (JS.leb audioDuration videoDuration).
  - unfold resolve. rewrite (ffmpeg_save_ends E every_request_ends).
    cbn [fst snd product]. split; [reflexivity|].
    rewrite content_write_same. rewrite ?content_log_same.
    rewrite Hlooped, Hpadded. reflexivity.
  - rewrite (ffmpeg_save_ends E every_request_ends). cbn [fst snd product].
    rewrite (ffmpeg_save_ends E every_request_ends). cbn [fst snd product].
    split; [reflexivity|].
    rewrite content_write_same. rewrite ?content_log_same.
    rewrite content_write_same.
    rewrite (content_write_other looped extended)
      by (apply extended_is_not_looped).
    rewrite ?content_log_same.
    rewrite Hvideo, Hpadded. reflexivity.
Qed.

End Successful_run.

(** X9.  A run of [mergeAudioVideo] in which every request ends, for
    input and output files outside the temporary directory: the promise
    resolves and, after the cleanup, [outputPath] holds the mux of a
    video track and the padded audio (each chunk followed by its
    silence).  The video track is the looped and trimmed video when the
    audio is longer than the video; otherwise the mux is given
    [looped-video.mp4] of the temporary directory, a file this run has
    not written, because [loopVideo] resolved with the original path and
    its result is not used. *)
Theorem successful_run_output (E : Engine)
  (dirname randomHex videoPath audioPath outputPath : string)
  (videoDuration audioDuration : Q) (lines : list string)
  (audioChunks : list Chunk) (lastEnd : Q) (w : World) :
  (forall r, run E r = None) ->
  ffprobe E videoPath = Resolved videoDuration ->
  ffprobe E audioPath = Resolved audioDuration ->
  silencedetect E audioPath = (lines, None) ->
  Analyzer.audioChunks_of (Scraper.scrape lines) = (audioChunks, lastEnd) ->
  let tempDir := path_join dirname randomHex in
  is_under tempDir audioPath = false ->
  is_under tempDir videoPath = false ->
  is_under tempDir outputPath = false ->
  let silence :=
    JS.Math_min (JS.div (videoDuration - lastEnd)
                   (inject_Z (Z.of_nat (List.length audioChunks)))) 5 in
  let padded :=
    Cat (map (fun chunk =>
                Cat [Cut (content w audioPath) (chunk_start chunk)
                       (chunk_end chunk - chunk_start chunk);
                     Silence silence]) audioChunks) in
  let shown :=
    if JS.leb audioDuration videoDuration
    then content w (path_join tempDir "looped-video.mp4")
    else Looped (content w videoPath)
           (JS.sub (JS.Math_ceil (JS.div audioDuration videoDuration)) 1)
           audioDuration in
  fst (TempDir.mergeAudioVideo E dirname randomHex videoPath audioPath outputPath w)
  = Resolved tt
  /\ lookup outputPath
       (files (snd (TempDir.mergeAudioVideo E dirname randomHex videoPath audioPath
                      outputPath w)))
     = Some (Muxed shown padded).
Proof.
  intros Hends Hvideo Haudio Hdetect Hchunks tempDir Haout Hvout Hoout
         silence padded shown.
  unfold TempDir.mergeAudioVideo, TempDir.createTempDirectory, finally, try_catch.
  change (path_join dirname (TempDir.generateRandomFolderName randomHex))
    with tempDir.
  destruct (merge_steps_output E Hends videoPath audioPath outputPath tempDir
              videoDuration audioDuration lines audioChunks lastEnd
              Hvideo Haudio Hdetect Hchunks Haout Hvout (mkdirSync tempDir w))
    as [Hres Hcontent].
  change (content (mkdirSync tempDir w)) with (content w) in Hcontent.
  fold silence padded shown in Hcontent.
  destruct (TempDir.merge_steps E videoPath audioPath outputPath tempDir
              (mkdirSync tempDir w)) as [r w1].
  cbn [fst snd] in *. subst r. cbn [fst snd].
  split; [reflexivity|].
  rewrite (lookup_rmSync tempDir outputPath _ Hoout).
  unfold content in Hcontent.
  destruct (lookup outputPath (files w1)) as [m|]; [|discriminate Hcontent].
  rewrite Hcontent. reflexivity.
Qed.

Lemma successful_run_output_witness :
  TempDir.mergeAudioVideo (Runs.engine_of (fun _ => 10) Runs.one_pause)
    "/app" "tmp" Runs.video Runs.audio Runs.output Runs.fresh
  = (Resolved tt,
     mkWorld []
       [(Runs.output,
         Muxed (Original "/app/tmp/looped-video.mp4")
           (Cat [Cat [Cut (Original Runs.audio) 0 (25 # 10); Silence (JS.Fin 5)]]))]
       [Ffprobe Runs.video; Ffprobe Runs.audio; SilenceDetect Runs.audio;
        Trim Runs.audio 0 (25 # 10) "/app/tmp/chunk-0.mp3";
        PadSilence "/app/tmp/chunk-0.mp3" (JS.Fin 5) "/app/tmp/merged-0.mp3";
        ConcatN ["/app/tmp/merged-0.mp3"] 1 "/app/tmp/extended-audio.mp3";
        Mux "/app/tmp/looped-video.mp4" "/app/tmp/extended-audio.mp3" Runs.output])
  /\ lookup Runs.output
       (files (snd (TempDir.mergeAudioVideo
                      (Runs.engine_of (fun _ => 10) Runs.one_pause)
                      "/app" "tmp" Runs.video Runs.audio Runs.output Runs.fresh)))
     = Some (Muxed (Original "/app/tmp/looped-video.mp4")
               (Cat [Cat [Cut (Original Runs.audio) 0 (25 # 10);
                          Silence (JS.Fin 5)]])).
Proof.
  split; [reflexivity|].
  exact (proj2 (successful_run_output
                  (Runs.engine_of (fun _ => 10) Runs.one_pause)
                  "/app" "tmp" Runs.video Runs.audio Runs.output 10 10
                  Runs.one_pause [mkChunk 0 (25 # 10)] (45 # 10) Runs.fresh
                  (fun _ => eq_refl) eq_refl eq_refl eq_refl eq_refl
                  eq_refl eq_refl eq_refl)).
Defined.

(** ** Looping a video of zero length *)

(** X10.  [loopVideo] does not guard a zero video duration: for a
    positive audio duration the quotient is infinite, so the loop count
    is not a finite number and the request is issued with
    [-stream_loop Infinity]. *)
Theorem loopVideo_zero_length_video (E : Engine) (videoPath : string)
  (videoDuration audioDuration : Q) (outputLoopedVideoPath tempDir : string)
  (w : World) :
  (videoDuration == 0)%Q ->
  (0 < audioDuration)%Q ->
  JS.Math_ceil (JS.div audioDuration videoDuration) = JS.PosInf
  /\ issued (snd (TempDir.loopVideo E videoPath videoDuration audioDuration
                    outputLoopedVideoPath tempDir w))
     = (issued w ++ [LoopTrim videoPath JS.PosInf audioDuration
                       outputLoopedVideoPath])%list.
Proof.
  intros Hzero Hpos.
  assert (Hdiv : JS.div audioDuration videoDuration = JS.PosInf).
  { unfold JS.div.
    assert (Hz : Qeq_bool videoDuration 0 = true) by (apply Qeq_bool_iff; exact Hzero).
    rewrite Hz. apply Qgt_alt in Hpos. rewrite Hpos. reflexivity. }
  split; [rewrite Hdiv; reflexivity|].
  unfold TempDir.loopVideo.
  assert (Hleb : JS.leb audioDuration videoDuration = false).
  { apply leb_false_of_lt. rewrite Hzero. exact Hpos. }
  rewrite Hleb, Hdiv. simpl. apply ffmpeg_save_issued.
Qed.

Lemma loopVideo_zero_length_video_witness :
  issued (snd (TempDir.loopVideo (Runs.engine_of (fun _ => 0) []) Runs.video 0 12
                 "/app/tmp/looped-video.mp4" "/app/tmp" Runs.fresh))
  = [LoopTrim Runs.video JS.PosInf 12 "/app/tmp/looped-video.mp4"].
Proof.
  exact (proj2 (loopVideo_zero_length_video (Runs.engine_of (fun _ => 0) [])
                  Runs.video 0 12 "/app/tmp/looped-video.mp4" "/app/tmp" Runs.fresh
                  eq_refl eq_refl)).
Defined.

(** ** [processMedia]: which path runs *)

(** X11.  [processMedia] with an audio longer than the video: after the
    two probes the only alignment request is the loop; the padding path
    is not entered.  When the loop ends, the mux is given the looped
    video and the original audio; when it fails, nothing is muxed.  The
    promise resolves either way. *)
Theorem processMedia_loops_when_audio_is_longer (E : Engine) (dirname : string)
  (videoDuration audioDuration : Q) (w : World) :
  ffprobe E (Chunked.videoFilePath dirname) = Resolved videoDuration ->
  ffprobe E (Chunked.audioFilePath dirname) = Resolved audioDuration ->
  (videoDuration < audioDuration)%Q ->
  let loop :=
    LoopTrim (Chunked.videoFilePath dirname)
      (JS.sub (JS.Math_ceil (JS.div audioDuration videoDuration)) 1)
      audioDuration (Chunked.outputLoopedVideoPath dirname) in
  fst (Chunked.processMedia E dirname w) = Resolved tt
  /\ issued (snd (Chunked.processMedia E dirname w))
     = (issued w
        ++ [Ffprobe (Chunked.videoFilePath dirname);
            Ffprobe (Chunked.audioFilePath dirname); loop]
        ++ match run E loop with
           | None => [Mux (Chunked.outputLoopedVideoPath dirname)
                        (Chunked.audioFilePath dirname)
                        (Chunked.outputVideoWithAudioPath dirname)]
           | Some _ => []
           end)%list.
Proof.
  intros Hvideo Haudio Hlonger loop.
  unfold Chunked.processMedia, try_catch, then_, getDuration.
  rewrite Hvideo, Haudio. unfold Chunked.align.
  assert (Hgt : JS.gtb audioDuration videoDuration = true).
  { unfold JS.gtb. apply ltb_lt. exact Hlonger. }
  rewrite Hgt. unfold then_, Chunked.loopVideo.
  rewrite (leb_false_of_lt _ _ Hlonger). fold loop.
  unfold Chunked.mergeAudioVideo, ffmpeg_save, resolve.
  destruct (run E loop) as [err|]; simpl.
  - split; [reflexivity|]. rewrite <- !app_assoc. reflexivity.
  - destruct (run E _) as [err|]; simpl; (split; [reflexivity|]);
      rewrite <- !app_assoc; reflexivity.
Qed.

Lemma processMedia_loops_when_audio_is_longer_witness :
  issued (snd (Chunked.processMedia Runs.microsecond_longer_audio "/app" Runs.fresh))
  = [Ffprobe "/app/looped-input-video.mp4"; Ffprobe "/app/input-audio.mp3";
     LoopTrim "/app/looped-input-video.mp4" (JS.Fin 1) (10000001 # 1000000)
       "/app/looped-video.mp4";
     Mux "/app/looped-video.mp4" "/app/input-audio.mp3"
       "/app/output-video-with-audio.mp4"].
Proof.
  exact (proj2 (processMedia_loops_when_audio_is_longer
                  Runs.microsecond_longer_audio "/app" 10 (10000001 # 1000000)
                  Runs.fresh eq_refl eq_refl eq_refl)).
Defined.

Lemma chunked_extend_resolves_with_output (E : Engine) dirname audioPath videoDuration
  outputAudioPath w a :
  fst (Chunked.extendAudioWithSilence E dirname audioPath videoDuration
         outputAudioPath w) = Resolved a ->
  a = outputAudioPath.
Proof.
  unfold Chunked.extendAudioWithSilence, then_.
  destruct (detectSilences E audioPath w) as [[silenceTimes|err] w1]; [|discriminate].
  destruct (Analyzer.audioChunks_of silenceTimes) as [audioChunks audioDuration].
  destruct (Promise_all _ w1) as [[results|err] w2]; [|discriminate].
  destruct (Promise_all _ w2) as [[mergedFiles|err] w3]; [|discriminate].
  intros Hres. apply ffmpeg_save_resolved in Hres. apply Hres.
Qed.

Lemma chunked_extend_issues_padding (E : Engine) dirname audioPath videoDuration
  outputAudioPath :
  issues_only Reading.is_padding
    (Chunked.extendAudioWithSilence E dirname audioPath videoDuration outputAudioPath).
Proof.
  unfold Chunked.extendAudioWithSilence.
  apply issues_only_then; [apply issues_only_detectSilences; exact I|].
  intros silenceTimes.
  destruct (Analyzer.audioChunks_of silenceTimes) as [audioChunks audioDuration].
  apply issues_only_then.
  - apply issues_only_all. apply Forall_forall. intros p Hp.
    destruct (In_mapi_from_member _ _ _ _ Hp) as (chunk & i & _ & ->).
    apply issues_only_then; [apply issues_only_save; exact I|].
    intros chunkAudioPath. apply issues_only_save. exact I.
  - intros results. apply issues_only_then.
    + apply issues_only_all. apply Forall_forall. intros p Hp.
      apply in_map_iff in Hp. destruct Hp as ([c s] & <- & _).
      apply issues_only_save. exact I.
    + intros mergedFiles. apply issues_only_save. exact I.
Qed.

(** X12.  [processMedia] with a video longer than the audio: after the
    two probes only requests of the padding path are issued, never a
    loop; the promise resolves in every case, and when a mux is
    requested it is the last request and it is given the original video
    and the extended audio. *)
Theorem processMedia_pads_when_video_is_longer (E : Engine) (dirname : string)
  (videoDuration audioDuration : Q) (w : World) :
  ffprobe E (Chunked.videoFilePath dirname) = Resolved videoDuration ->
  ffprobe E (Chunked.audioFilePath dirname) = Resolved audioDuration ->
  (audioDuration < videoDuration)%Q ->
  fst (Chunked.processMedia E dirname w) = Resolved tt
  /\ exists padding,
       Forall Reading.is_padding padding
       /\ (issued (snd (Chunked.processMedia E dirname w))
           = (issued w
              ++ [Ffprobe (Chunked.videoFilePath dirname);
                  Ffprobe (Chunked.audioFilePath dirname)]
              ++ padding)%list
           \/ issued (snd (Chunked.processMedia E dirname w))
              = (issued w
                 ++ [Ffprobe (Chunked.videoFilePath dirname);
                     Ffprobe (Chunked.audioFilePath dirname)]
                 ++ padding
                 ++ [Mux (Chunked.videoFilePath dirname)
                       (Chunked.extendedAudioPath dirname)
                       (Chunked.outputVideoWithAudioPath dirname)])%list).
Proof.
  intros Hvideo Haudio Hlonger.
  unfold Chunked.processMedia, try_catch, then_, getDuration.
  rewrite Hvideo, Haudio. unfold Chunked.align.
  assert (Hgt : JS.gtb audioDuration videoDuration = false).
  { apply gtb_false_of_le. apply Qlt_le_weak. exact Hlonger. }
  assert (Hgt' : JS.gtb videoDuration audioDuration = true).
  { unfold JS.gtb. apply ltb_lt. exact Hlonger. }
  rewrite Hgt, Hgt'. unfold then_.
  set (w2 := log (Ffprobe (Chunked.audioFilePath dirname))
               (log (Ffprobe (Chunked.videoFilePath dirname)) w)).
  destruct (chunked_extend_issues_padding E dirname (Chunked.audioFilePath dirname)
              videoDuration (Chunked.extendedAudioPath dirname) w2)
    as (padding & Hlog & Hpadding).
  pose proof (chunked_extend_resolves_with_output E dirname
                (Chunked.audioFilePath dirname) videoDuration
                (Chunked.extendedAudioPath dirname) w2) as Hvalue.
  destruct (Chunked.extendAudioWithSilence E dirname (Chunked.audioFilePath dirname)
              videoDuration (Chunked.extendedAudioPath dirname) w2)
    as [[a|err] w3]; cbn [fst snd] in *.
  - rewrite (Hvalue a eq_refl). unfold resolve. cbn [fst snd].
    unfold Chunked.mergeAudioVideo.
    pose proof (ffmpeg_save_issued E
                  (Mux (Chunked.videoFilePath dirname) (Chunked.extendedAudioPath dirname)
                     (Chunked.outputVideoWithAudioPath dirname))
                  (Chunked.outputVideoWithAudioPath dirname) w3) as Hmux.
    destruct (ffmpeg_save E _ _ w3) as [[out|err] w4]; cbn [fst snd] in *.
    + split; [reflexivity|]. exists padding. split; [exact Hpadding|]. right.
      change (issued w4 = (issued w
                ++ [Ffprobe (Chunked.videoFilePath dirname);
                    Ffprobe (Chunked.audioFilePath dirname)]
                ++ padding
                ++ [Mux (Chunked.videoFilePath dirname)
                      (Chunked.extendedAudioPath dirname)
                      (Chunked.outputVideoWithAudioPath dirname)])%list).
      rewrite Hmux, Hlog. unfold w2. simpl. rewrite <- !app_assoc. reflexivity.
    + split; [reflexivity|]. exists padding. split; [exact Hpadding|]. right.
      change (issued w4 = (issued w
                ++ [Ffprobe (Chunked.videoFilePath dirname);
                    Ffprobe (Chunked.audioFilePath dirname)]
                ++ padding
                ++ [Mux (Chunked.videoFilePath dirname)
                      (Chunked.extendedAudioPath dirname)
                      (Chunked.outputVideoWithAudioPath dirname)])%list).
      rewrite Hmux, Hlog. unfold w2. simpl. rewrite <- !app_assoc. reflexivity.
  - split; [reflexivity|]. exists padding. split; [exact Hpadding|]. left.
    change (issued w3 = (issued w
              ++ [Ffprobe (Chunked.videoFilePath dirname);
                  Ffprobe (Chunked.audioFilePath dirname)]
              ++ padding)%list).
    rewrite Hlog. unfold w2. simpl. rewrite <- !app_assoc. reflexivity.
Qed.

Lemma processMedia_pads_when_video_is_longer_witness :
  fst (Chunked.processMedia
         (Runs.engine_of (fun p => if String.eqb p "/app/input-audio.mp3"
                                   then 5 else 12) Runs.one_pause)
         "/app" Runs.fresh)
  = Resolved tt.
Proof.
  exact (proj1 (processMedia_pads_when_video_is_longer
                  (Runs.engine_of (fun p => if String.eqb p "/app/input-audio.mp3"
                                            then 5 else 12) Runs.one_pause)
                  "/app" 12 5 Runs.fresh eq_refl eq_refl eq_refl)).
Defined.

(** ** The first chunked iteration: names of the merged files and the
       final concatenation *)

Lemma after_last_slash_step c s cur :
  after_last_slash (String c s) cur
  = if Ascii.eqb c "/" then after_last_slash s s else after_last_slash s cur.
Proof. destruct c as [[] [] [] [] [] [] [] []]; reflexivity. Qed.

Lemma after_last_slash_free s : forall cur,
  Reading.slash_free s = true -> after_last_slash s cur = cur.
Proof.
  induction s as [|c s IH]; intros cur Hs; [reflexivity|].
  simpl in Hs. apply andb_true_iff in Hs. destruct Hs as [Hc Hs].
  rewrite after_last_slash_step. apply negb_true_iff in Hc. rewrite Hc.
  exact (IH cur Hs).
Qed.

Lemma basename_of_joined dir name :
  Reading.slash_free name = true -> basename (path_join dir name) = name.
Proof.
  intros Hname. unfold basename, path_join.
  generalize (dir ++ "/" ++ name) at 2. 
  induction dir as [|c dir IH]; intros cur.
  - simpl. apply after_last_slash_free. exact Hname.
  - change (String c dir ++ "/" ++ name) with (String c (dir ++ "/" ++ name)).
    rewrite after_last_slash_step. destruct (Ascii.eqb c "/"); apply IH.
Qed.

Lemma slash_free_app s t :
  Reading.slash_free (s ++ t) = Reading.slash_free s && Reading.slash_free t.
Proof.
  induction s as [|c s IH]; simpl; [reflexivity|].
  rewrite IH. apply andb_assoc.
Qed.

Lemma digits_are_slash_free s :
  Scraper.all_digits s = true -> Reading.slash_free s = true.
Proof.
  induction s as [|c s IH]; simpl; [reflexivity|]. intros Hs.
  apply andb_true_iff in Hs. destruct Hs as [Hc Hs]. rewrite (IH Hs).
  destruct c as [[] [] [] [] [] [] [] []]; try discriminate Hc; reflexivity.
Qed.

Lemma index_text_digits i : Scraper.all_digits (index_text i) = true.
Proof.
  unfold index_text. induction (Nat.to_uint i) as [|d IH|d IH|d IH|d IH|d IH
    |d IH|d IH|d IH|d IH|d IH]; simpl; try exact IH; reflexivity.
Qed.

Lemma chunk_name_slash_free i :
  Reading.slash_free ("chunk-" ++ index_text i ++ ".mp3") = true.
Proof.
  rewrite !slash_free_app, (digits_are_slash_free _ (index_text_digits i)).
  reflexivity.
Qed.

Lemma resolves_with_then {A B : Type} (m : Promise A) (k : A -> Promise B) a b :
  resolves_with m a -> resolves_with (k a) b -> resolves_with (then_ m k) b.
Proof.
  intros Hm Hk w. unfold then_. specialize (Hm w).
  destruct (m w) as [[a'|err] w1]; simpl in Hm; [|discriminate].
  injection Hm as ->. apply Hk.
Qed.

Lemma resolves_with_all {A : Type} (ps : list (Promise A)) values :
  Forall2 resolves_with ps values -> resolves_with (Promise_all ps) values.
Proof.
  intros Hall. induction Hall as [|p v ps vs Hp Hps IH]; intros w; simpl.
  - reflexivity.
  - specialize (Hp w). destruct (p w) as [r w1]. simpl in Hp. subst r.
    specialize (IH w1). destruct (Promise_all ps w1) as [rs w2]. simpl in IH.
    subst rs. reflexivity.
Qed.

Lemma Forall2_mapi_from {A B C : Type} (R : B -> C -> Prop)
  (f : A -> nat -> B) (g : A -> nat -> C) l : forall k,
  (forall x i, R (f x i) (g x i)) ->
  Forall2 R (mapi_from k f l) (mapi_from k g l).
Proof.
  induction l as [|x l IH]; intros k Hfg; simpl; constructor.
  - apply Hfg.
  - apply IH. exact Hfg.
Qed.

Lemma mapi_from_length_eq {A B : Type} (f : A -> nat -> B) l : forall k,
  List.length (mapi_from k f l) = List.length l.
Proof.
  induction l as [|x l IH]; intros k; simpl; [reflexivity|].
  rewrite IH. reflexivity.
Qed.

(** X13.  The first chunked iteration, when every request ends: the
    promise resolves with [outputAudioPath], each merged file is named
    [merged-chunk-<index>.mp3] after the base name of its chunk, and the
    last request is a concatenation whose single input is the text of
    all merged paths joined with [|], while its filter is written for as
    many inputs as there are chunks. *)
Theorem first_chunked_iteration_joins_inputs (E : Engine)
  (dirname audioPath outputAudioPath : string) (videoDuration : Q)
  (lines : list string) (audioChunks : list Chunk) (audioDuration : Q) (w : World) :
  (forall r, run E r = None) ->
  silencedetect E audioPath = (lines, None) ->
  Analyzer.audioChunks_of (Scraper.scrape lines) = (audioChunks, audioDuration) ->
  let mergedFiles :=
    mapi (fun (_ : Chunk) index =>
            path_join dirname ("merged-" ++ "chunk-" ++ index_text index ++ ".mp3"))
      audioChunks in
  fst (Chunked.extendAudioWithSilence E dirname audioPath videoDuration
         outputAudioPath w) = Resolved outputAudioPath
  /\ exists earlier,
       issued (snd (Chunked.extendAudioWithSilence E dirname audioPath videoDuration
                      outputAudioPath w))
       = (earlier ++ [ConcatN [String.concat "|" mergedFiles]
                        (List.length audioChunks) outputAudioPath])%list.
Proof.
  intros Hends Hdetect Hchunks mergedFiles.
  unfold Chunked.extendAudioWithSilence, then_, detectSilences.
  rewrite Hdetect. cbv beta iota zeta. rewrite Hchunks. cbv beta iota zeta.
  set (w1 := log (SilenceDetect audioPath) w).
  set (silence := JS.Math_min _ 5).
  set (first_batch := mapi _ audioChunks).
  set (results :=
    mapi (fun (_ : Chunk) index =>
            (path_join dirname ("chunk-" ++ index_text index ++ ".mp3"),
             path_join dirname ("silence-" ++ index_text index ++ ".mp3")))
      audioChunks).
  assert (H1 : resolves_with (Promise_all first_batch) results).
  { apply resolves_with_all. unfold first_batch, results, mapi.
    apply Forall2_mapi_from. intros chunk i.
    eapply resolves_with_then.
    - intros w'. rewrite (ffmpeg_save_ends E Hends). reflexivity.
    - intros w'. rewrite (ffmpeg_save_ends E Hends). reflexivity. }
  specialize (H1 w1). destruct (Promise_all first_batch w1) as [r1 w2].
  simpl in H1. subst r1.
  set (second_batch := map _ results).
  assert (H2 : resolves_with (Promise_all second_batch) mergedFiles).
  { apply resolves_with_all. unfold second_batch, results, mergedFiles, mapi.
    rewrite mapi_from_map. apply Forall2_mapi_from. intros chunk i w'.
    cbv beta iota. rewrite (ffmpeg_save_ends E Hends). cbn [fst].
    rewrite (basename_of_joined _ _ (chunk_name_slash_free i)). reflexivity. }
  specialize (H2 w2). destruct (Promise_all second_batch w2) as [r2 w3].
  simpl in H2. subst r2.
  split.
  - rewrite (ffmpeg_save_ends E Hends). reflexivity.
  - exists (issued w3). rewrite ffmpeg_save_issued.
    unfold mergedFiles, mapi. rewrite mapi_from_length_eq. reflexivity.
Qed.

Lemma first_chunked_iteration_joins_inputs_witness :
  exists earlier,
    issued (snd (Chunked.extendAudioWithSilence
                   (Runs.engine_of (fun _ => 10) Runs.two_pauses) "/app"
                   Runs.audio 20 "/app/extended-audio.mp3" Runs.fresh))
    = (earlier
       ++ [ConcatN ["/app/merged-chunk-0.mp3|/app/merged-chunk-1.mp3"] 2
             "/app/extended-audio.mp3"])%list.
Proof.
  exact (proj2 (first_chunked_iteration_joins_inputs
                  (Runs.engine_of (fun _ => 10) Runs.two_pauses) "/app"
                  Runs.audio "/app/extended-audio.mp3" 20 Runs.two_pauses
                  [mkChunk 0 (25 # 10); mkChunk (45 # 10) (925 # 100)] (95 # 10)
                  Runs.fresh (fun _ => eq_refl) eq_refl eq_refl)).
Defined.

(** ** The simple variant: the detected silence and the padding *)

Lemma reduce_from_pairs silences : forall previous total,
  (Simple.reduce_from previous total (Reading.events_of silences)
   == total + Reading.total_length silences)%Q.
Proof.
  induction silences as [|[s e] silences IH]; intros previous total.
  - simpl. ring.
  - change (Simple.reduce_from previous total (Reading.events_of ((s, e) :: silences)))
      with (Simple.reduce_from (Some (mkEvent end_ e))
              (Simple.reducer (Simple.reducer total (mkEvent start_ s) previous)
                 (mkEvent end_ e) (Some (mkEvent start_ s)))
              (Reading.events_of silences)).
    assert (Hstart : Simple.reducer total (mkEvent start_ s) previous = total).
    { unfold Simple.reducer. simpl. destruct previous; reflexivity. }
    rewrite Hstart, IH.
    change (Reading.total_length ((s, e) :: silences))
      with ((e - s) + Reading.total_length silences)%Q.
    unfold Simple.reducer. cbn [type time]. ring.
Qed.

Lemma reduce_from_leading_end t events total :
  Simple.reduce_from (Some (mkEvent end_ t)) total events
  = Simple.reduce_from None total events.
Proof.
  destruct events as [|current events]; simpl; [reflexivity|].
  unfold Simple.reducer. simpl. destruct (type current); reflexivity.
Qed.

(** X14.  [totalSilenceTime] adds [end - start] for each End that
    directly follows a Start: on the events of a list of silences it is
    the sum of their lengths, and an End that opens the stream, having
    no Start before it, adds nothing. *)
Theorem totalSilenceTime_sums_paired_silences (silences : list (Q * Q))
  (t : Q) (events : list SilenceEvent) :
  (Simple.totalSilenceTime (Reading.events_of silences)
   == Reading.total_length silences)%Q
  /\ Simple.totalSilenceTime (mkEvent end_ t :: events)
     = Simple.totalSilenceTime events.
Proof.
  split.
  - unfold Simple.totalSilenceTime. rewrite reduce_from_pairs. ring.
  - unfold Simple.totalSilenceTime. simpl. apply reduce_from_leading_end.
Qed.

(** X15.  The simple variant when the detection and every request end,
    the audio file is not [silence.mp3] itself, and [videoDuration -
    totalSilenceTime] is positive: the promise resolves with
    [outputAudioPath], which holds the original audio followed by
    exactly one silence of [min(videoDuration - totalSilenceTime, 5)]
    seconds, a length that is positive and at most 5. *)
Theorem simple_variant_appends_one_capped_silence (E : Engine)
  (dirname audioPath outputAudioPath : string) (videoDuration : Q)
  (lines : list string) (w : World) :
  (forall r, run E r = None) ->
  silencedetect E audioPath = (lines, None) ->
  audioPath <> path_join dirname "silence.mp3" ->
  let additionalSilenceNeeded :=
    (videoDuration - Simple.totalSilenceTime (Scraper.scrape lines))%Q in
  (0 < additionalSilenceNeeded)%Q ->
  let silenceDuration := Qmin additionalSilenceNeeded 5 in
  fst (Simple.extendAudioWithSilence E dirname audioPath videoDuration
         outputAudioPath w) = Resolved outputAudioPath
  /\ content (snd (Simple.extendAudioWithSilence E dirname audioPath videoDuration
                     outputAudioPath w)) outputAudioPath
     = Cat [content w audioPath; Silence (JS.Fin silenceDuration)]
  /\ (0 < silenceDuration)%Q /\ (silenceDuration <= 5)%Q.
Proof.
  intros Hends Hdetect Hdistinct needed Hneeded silenceDuration.
  unfold Simple.extendAudioWithSilence, then_, detectSilences.
  rewrite Hdetect. cbv beta iota zeta. fold needed.
  rewrite (leb_false_of_lt _ _ Hneeded). fold silenceDuration.
  rewrite (ffmpeg_save_ends E Hends). cbn [fst snd product].
  rewrite (ffmpeg_save_ends E Hends). cbn [fst snd product].
  split; [reflexivity|]. split.
  - rewrite content_write_same.
    rewrite content_write_same.
    rewrite (content_write_other _ audioPath) by exact Hdistinct.
    reflexivity.
  - split.
    + apply Q.min_glb_lt; [exact Hneeded|reflexivity].
    + apply Q.le_min_r.
Qed.

Lemma simple_variant_appends_one_capped_silence_witness :
  content (snd (Simple.extendAudioWithSilence
                  (Runs.engine_of (fun _ => 30) Runs.long_pause) "/app" Runs.audio 30
                  "/app/extended-audio.mp3" Runs.fresh)) "/app/extended-audio.mp3"
  = Cat [Original Runs.audio; Silence (JS.Fin 5)].
Proof.
  exact (proj1 (proj2 (simple_variant_appends_one_capped_silence
    (Runs.engine_of (fun _ => 30) Runs.long_pause) "/app" Runs.audio
    "/app/extended-audio.mp3" 30 Runs.long_pause Runs.fresh
    (fun _ => eq_refl) eq_refl
    (fun H : Runs.audio = path_join "/app" "silence.mp3" =>
       eq_ind Runs.audio
         (fun s => match s with
                   | String _ (String _ (String _ (String _ (String _
                       (String "i" _))))) => True
                   | _ => False
                   end) I _ H)
    eq_refl))).
Defined.

(** ** The drivers of the simple scripts *)

(** X16.  [processMedia] of the first script, with a video longer than
    the audio and a detected silence that does not exceed the audio
    duration: the early return of the simple variant is not taken.  One
    silence of [min(videoDuration - totalSilenceTime, 5)] seconds, a
    positive length computed from the detected silence and not from the
    audio duration, is generated; when it is written it is appended to
    the audio, and when that ends the original video is muxed with the
    extended audio.  The promise resolves in every case. *)
Theorem first_processMedia_pads_with_one_silence (E : Engine) (dirname : string)
  (videoDuration audioDuration : Q) (lines : list string) (w : World) :
  ffprobe E (Chunked.videoFilePath dirname) = Resolved videoDuration ->
  ffprobe E (Chunked.audioFilePath dirname) = Resolved audioDuration ->
  silencedetect E (Chunked.audioFilePath dirname) = (lines, None) ->
  (audioDuration < videoDuration)%Q ->
  (Simple.totalSilenceTime (Scraper.scrape lines) <= audioDuration)%Q ->
  let silenceDuration :=
    Qmin (videoDuration - Simple.totalSilenceTime (Scraper.scrape lines)) 5 in
  let silentFilePath := path_join dirname "silence.mp3" in
  let generate := GenSilence (JS.Fin silenceDuration) silentFilePath in
  let append :=
    Concat2 (Chunked.audioFilePath dirname) silentFilePath
      (Chunked.extendedAudioPath dirname) in
  (0 < silenceDuration)%Q
  /\ fst (FirstProcess.processMedia E dirname w) = Resolved tt
  /\ issued (snd (FirstProcess.processMedia E dirname w))
     = (issued w
        ++ [Ffprobe (Chunked.videoFilePath dirname);
            Ffprobe (Chunked.audioFilePath dirname);
            SilenceDetect (Chunked.audioFilePath dirname); generate]
        ++ match run E generate with
           | Some _ => []
           | None =>
               append ::
               match run E append with
               | Some _ => []
               | None => [Mux (Chunked.videoFilePath dirname)
                            (Chunked.extendedAudioPath dirname)
                            (Chunked.outputVideoWithAudioPath dirname)]
               end
           end)%list.
Proof.
  intros Hvideo Haudio Hdetect Hlonger Hsilence silenceDuration silentFilePath
         generate append.
  assert (Hneeded : (0 < videoDuration
                         - Simple.totalSilenceTime (Scraper.scrape lines))%Q).
  { apply (Qlt_minus_iff (Simple.totalSilenceTime (Scraper.scrape lines))
             videoDuration).
    exact (Qle_lt_trans _ _ _ Hsilence Hlonger). }
  split; [apply Q.min_glb_lt; [exact Hneeded|reflexivity]|].
  unfold FirstProcess.processMedia, try_catch, then_, getDuration.
  rewrite Hvideo, Haudio. unfold FirstProcess.align.
  assert (Hgt : JS.gtb audioDuration videoDuration = false).
  { apply gtb_false_of_le. apply Qlt_le_weak. exact Hlonger. }
  assert (Hgt' : JS.gtb videoDuration audioDuration = true).
  { unfold JS.gtb. apply ltb_lt. exact Hlonger. }
  rewrite Hgt, Hgt'.
  unfold Simple.extendAudioWithSilence, then_, detectSilences.
  rewrite Hdetect. cbv beta iota zeta.
  rewrite (leb_false_of_lt _ _ Hneeded).
  subst generate append silentFilePath silenceDuration.
  unfold Chunked.mergeAudioVideo, ffmpeg_save, resolve.
  destruct (run E (GenSilence _ _)) as [err|].
  - simpl. split; [reflexivity|]. rewrite <- !app_assoc. reflexivity.
  - cbn [fst snd product].
    destruct (run E (Concat2 _ _ _)) as [err|].
    + simpl. split; [reflexivity|]. rewrite <- !app_assoc. reflexivity.
    + cbn [fst snd product].
      destruct (run E (Mux _ _ _)) as [err|]; simpl;
        (split; [reflexivity|]); rewrite <- !app_assoc; reflexivity.
Qed.

Lemma first_processMedia_pads_with_one_silence_witness :
  issued (snd (FirstProcess.processMedia
                 (Runs.engine_of (fun p => if String.eqb p "/app/input-audio.mp3"
                                           then 5 else 12) Runs.one_pause)
                 "/app" Runs.fresh))
  = [Ffprobe "/app/looped-input-video.mp4"; Ffprobe "/app/input-audio.mp3";
     SilenceDetect "/app/input-audio.mp3";
     GenSilence (JS.Fin 5) "/app/silence.mp3";
     Concat2 "/app/input-audio.mp3" "/app/silence.mp3" "/app/extended-audio.mp3";
     Mux "/app/looped-input-video.mp4" "/app/extended-audio.mp3"
       "/app/output-video-with-audio.mp4"].
Proof.
  exact (proj2 (proj2 (first_processMedia_pads_with_one_silence
    (Runs.engine_of (fun p => if String.eqb p "/app/input-audio.mp3"
                              then 5 else 12) Runs.one_pause)
    "/app" 12 5 Runs.one_pause Runs.fresh
    eq_refl eq_refl eq_refl eq_refl (fun H => match H with eq_refl => I end)
    ))).
Defined.

(** X17.  The driver of [index2.js], under any engine: both probes are
    always requested, at most one loop request follows, and nothing
    else is ever requested: the chain stops at the second callback,
    whose [audioDuration] is not in scope, so no silence is detected or
    generated and no mux is made.  The [.catch] prints the error and
    the chain resolves. *)
Theorem index2_driver_never_pads_or_muxes (E : Engine) (dirname : string)
  (w : World) :
  fst (Index2.main E dirname w) = Resolved tt
  /\ exists after_probes,
       issued (snd (Index2.main E dirname w))
       = (issued w
          ++ [Ffprobe (Index2.videoFilePath dirname);
              Ffprobe (Index2.audioFilePath dirname)]
          ++ after_probes)%list
       /\ (after_probes = []
           \/ exists loops t,
                after_probes
                = [LoopTrim (Index2.videoFilePath dirname) loops t
                     (Index2.outputLoopedVideoPath dirname)]).
Proof.
  unfold Index2.main, try_catch, then_, Promise_all2, getDuration.
  destruct (ffprobe E (Index2.videoFilePath dirname)) as [videoDuration|err1].
  - destruct (ffprobe E (Index2.audioFilePath dirname)) as [audioDuration|err2].
    + cbn [fst snd]. unfold Chunked.loopVideo.
      destruct (JS.leb audioDuration videoDuration).
      * simpl. split; [reflexivity|]. exists []. split; [|left; reflexivity].
        rewrite <- !app_assoc. reflexivity.
      * unfold ffmpeg_save. destruct (run E _) as [err3|]; simpl;
          (split; [reflexivity|]);
          (eexists; split; [|right; eexists; eexists; reflexivity]);
          rewrite <- !app_assoc; reflexivity.
    + simpl. split; [reflexivity|]. exists []. split; [|left; reflexivity].
      rewrite <- !app_assoc. reflexivity.
  - destruct (ffprobe E (Index2.audioFilePath dirname)) as [audioDuration|err2];
      simpl; (split; [reflexivity|]); exists []; (split; [|left; reflexivity]);
      rewrite <- !app_assoc; reflexivity.
Qed.
